(** * pod-rightsizer: the load-test engine of [pkg/loadtest/tester.go]

    A shallow embedding of the metrics aggregator ([Metrics.Add] and the
    derived statistics), of the result-channel guard ([safeSend] and
    [safeClose]) and of the target validator ([validateTarget], [isURL]),
    with the properties the specification states about them. *)

From Stdlib Require Import ZArith List Bool Lia String Ascii.
From Stdlib Require Import Sorting.Sorted Sorting.Permutation.
From Stdlib Require Import Floats.SpecFloat.
From stdpp Require Import gmap list sorting.

Local Open Scope Z_scope.

(* ===================================================================== *)
(** ** Go machine integers

    [int], [int64] and [time.Duration] are 64-bit two's complement
    integers (the 64-bit targets the tool is built for).  They are
    carried as [Z]; every arithmetic operation that can overflow is
    followed by [wrap]. *)

Module GoInt.

Definition MinInt64 : Z := - 2 ^ 63.
Definition MaxInt64 : Z := 2 ^ 63 - 1.

Definition wrap (z : Z) : Z := (z + 2 ^ 63) mod 2 ^ 64 - 2 ^ 63.

Definition in_range (z : Z) : Prop := MinInt64 <= z <= MaxInt64.

Definition add (a b : Z) : Z := wrap (a + b).

(** [x++] *)
Definition incr (a : Z) : Z := add a 1.

(** [a / b]: truncated division; a zero divisor is a run-time panic
    ([None]), and [MinInt64 / -1] wraps. *)
Definition div (a b : Z) : option Z :=
  if b =? 0 then None else Some (wrap (Z.quot a b)).

(** [len(s)] as an [int]. *)
Definition len {A} (l : list A) : Z := Z.of_nat (length l).

(** [s[i]]: an index outside [0, len(s)) is a run-time panic. *)
Definition index {A} (l : list A) (i : Z) : option A :=
  if i <? 0 then None else l !! Z.to_nat i.

End GoInt.

(* ===================================================================== *)
(** ** Go's [float64]

    IEEE 754 binary64 with round-to-nearest-even, through the
    specification of the Standard Library ([SpecFloat], precision 53,
    [emax] 1024). *)

Module F64.

Definition prec : Z := 53.
Definition emax : Z := 1024.

Definition zero : spec_float := S754_zero false.

(** [float64(i)] for an integer [i]: the nearest binary64. *)
Definition of_int (z : Z) : spec_float := binary_normalize prec emax z 0 false.

Definition mul : spec_float -> spec_float -> spec_float := SFmul prec emax.
Definition div : spec_float -> spec_float -> spec_float := SFdiv prec emax.
Definition add : spec_float -> spec_float -> spec_float := SFadd prec emax.

(** [int(f)]: the fraction is discarded (truncation towards zero).  For a
    value outside [int] the language leaves the result to the
    implementation; amd64's [CVTTSD2SQ] gives [MinInt64], also for NaN
    and the infinities. *)
Definition to_int (f : spec_float) : Z :=
  match f with
  | S754_zero _ => 0
  | S754_finite s m e =>
      let a := if 0 <=? e then Z.pos m * 2 ^ e else Z.pos m / 2 ^ (- e) in
      let t := if s then - a else a in
      if (GoInt.MinInt64 <=? t) && (t <=? GoInt.MaxInt64) then t
      else GoInt.MinInt64
  | _ => GoInt.MinInt64
  end.

(** The constant [0.95] as a [float64]: [0x3FEE666666666666], the binary64
    nearest to 95/100. *)
Definition c095 : spec_float := S754_finite false 8556839292003942 (-53).

(** The constants [100.0] and [1e9]. *)
Definition c100 : spec_float := of_int 100.
Definition c1e9 : spec_float := of_int 1000000000.

(** A shift record [mrs] holds the quotient of [P] by [U] with the round
    and sticky bits of the remainder. *)
Definition shr_rel (P U : Z) (mrs : shr_record) : Prop :=
  exists rem : Z,
    0 <= rem < U /\ P = shr_m mrs * U + rem /\ 0 <= shr_m mrs /\
    shr_r mrs = (U <=? 2 * rem) /\
    shr_s mrs = negb ((rem =? 0) || (2 * rem =? U)).

(** The mantissa of [F64.c095]: twenty times it is [19 * 2^53 - 8]. *)
Definition m095 : Z := 8556839292003942.

End F64.

(* ===================================================================== *)
(** ** Outcomes and the metrics aggregate *)

Module Loadtest.

Import GoInt.

(** [type Result struct { Latency; StatusCode; Error }].  [Error] is
    [None] for a nil error, otherwise the error's message. *)
Record Result : Type := mkResult {
  Latency    : Z;
  StatusCode : Z;
  Error      : option string
}.

(** [type Metrics struct].  [StatusCodes] is [None] for the nil map of
    the zero value, and [Some h] once [Add] has made the map. *)
Record Metrics : Type := mkMetrics {
  Requests     : Z;
  Success      : Z;
  Failures     : Z;
  StatusCodes  : option (gmap Z Z);
  TotalLatency : Z;
  MinLatency   : Z;
  MaxLatency   : Z;
  Latencies    : list Z
}.

(** [var metrics Metrics]: the zero value the consumer starts from. *)
Definition zeroMetrics : Metrics :=
  mkMetrics 0 0 0 None 0 0 0 [].

(** [time.Second] and [time.Hour], in nanoseconds. *)
Definition Second : Z := 1000000000.
Definition Hour : Z := 3600 * Second.

(** What a reader of the histogram sees: a nil map reads as empty. *)
Definition histogram (m : Metrics) : gmap Z Z :=
  match StatusCodes m with
  | Some h => h
  | None => ∅
  end.

(** [h[k]++] on a Go map: a missing key reads as 0. *)
Definition map_incr (k : Z) (h : gmap Z Z) : gmap Z Z :=
  <[k := incr (default 0 (h !! k))]> h.

(** [func (m *Metrics) Add(r *Result)].  The diagnostic [fmt.Printf]
    lines write to standard output only and are left out. *)
Definition Add (r : Result) (m : Metrics) : Metrics :=
  (* if m.StatusCodes == nil { make the map; MinLatency = 24h } *)
  let sc0 := match StatusCodes m with
             | Some h => h
             | None => ∅
             end in
  let min0 := match StatusCodes m with
              | Some _ => MinLatency m
              | None => 24 * Hour
              end in
  (* m.Requests++ *)
  let reqs := incr (Requests m) in
  match Error r with
  | Some _ =>
      (* m.Failures++; return *)
      mkMetrics reqs (Success m) (incr (Failures m)) (Some sc0)
                (TotalLatency m) min0 (MaxLatency m) (Latencies m)
  | None =>
      let sc1 := map_incr (StatusCode r) sc0 in
      let total := add (TotalLatency m) (Latency r) in
      let lats := Latencies m ++ [Latency r] in
      let min1 := if Latency r <? min0 then Latency r else min0 in
      let max1 := if Latency r >? MaxLatency m then Latency r
                  else MaxLatency m in
      if (StatusCode r >=? 200) && (StatusCode r <? 400) then
        mkMetrics reqs (incr (Success m)) (Failures m) (Some sc1)
                  total min1 max1 lats
      else
        mkMetrics reqs (Success m) (incr (Failures m)) (Some sc1)
                  total min1 max1 lats
  end.

(** The consumer loop: one [Add] per outcome, in delivery order. *)
Definition AddAll (rs : list Result) (m : Metrics) : Metrics :=
  fold_left (fun acc r => Add r acc) rs m.

(** [func (m *Metrics) MeanLatency() time.Duration] *)
Definition MeanLatency (m : Metrics) : option Z :=
  if (Requests m =? 0) || (TotalLatency m =? 0) then Some 0
  else div (TotalLatency m) (Requests m).

(** [func (m *Metrics) SuccessRate() float64] *)
Definition SuccessRate (m : Metrics) : spec_float :=
  if Requests m =? 0 then F64.zero
  else F64.mul (F64.div (F64.of_int (Success m)) (F64.of_int (Requests m)))
               F64.c100.

(** [sort.Slice(s, func(i, j) bool { return s[i] < s[j] })].  The library
    sort is not stable, which no one can see on integers: the result is
    the one ascending arrangement of the elements ([sort_Slice_unique]
    below), computed here by a merge sort. *)
Definition sort_Slice (l : list Z) : list Z := merge_sort Z.le l.

(** [func (m *Metrics) P95Latency() time.Duration] *)
Definition P95Latency (m : Metrics) : option Z :=
  if len (Latencies m) =? 0 then Some 0
  else
    let sortedLatencies := sort_Slice (Latencies m) in
    let idx := F64.to_int (F64.mul (F64.of_int (len sortedLatencies))
                                   F64.c095) in
    let idx := if idx >=? len sortedLatencies
               then len sortedLatencies - 1 else idx in
    index sortedLatencies idx.

(** [func (d Duration) Seconds() float64] of package [time]:
    [sec := d / Second; nsec := d % Second;
     return float64(sec) + float64(nsec)/1e9]. *)
Definition Seconds (d : Z) : spec_float :=
  let sec := Z.quot d Second in
  let nsec := Z.rem d Second in
  F64.add (F64.of_int sec) (F64.div (F64.of_int nsec) F64.c1e9).

(** [func (m *Metrics) Throughput() float64] *)
Definition Throughput (m : Metrics) : spec_float :=
  if (Requests m =? 0) || (TotalLatency m =? 0) then F64.zero
  else F64.div (F64.of_int (Requests m)) (Seconds (TotalLatency m)).

(** The counting invariant, with Go's [+] and [==] on [int]. *)
Definition counts_balanced (m : Metrics) : Prop :=
  add (Success m) (Failures m) = Requests m.

(** The slice bound of the 64-bit targets: the address space has 2^48
    bytes, so a slice of 8-byte durations has fewer than 2^48 elements. *)
Definition maxLatencies : Z := 2 ^ 48.

(** The sums the two readings of throughput divide by. *)
Fixpoint sum_all_latencies (rs : list Result) : Z :=
  match rs with
  | [] => 0
  | r :: rs' => Latency r + sum_all_latencies rs'
  end.

Fixpoint sum_ok_latencies (rs : list Result) : Z :=
  match rs with
  | [] => 0
  | r :: rs' =>
      match Error r with
      | None => Latency r
      | Some _ => 0
      end + sum_ok_latencies rs'
  end.

(** Throughput in the specification's words: the number of requests over
    the sum of all observed latencies, those of errored outcomes
    included. *)
Definition Throughput_over_all_latencies (rs : list Result) : spec_float :=
  if len rs =? 0 then F64.zero
  else F64.div (F64.of_int (len rs)) (Seconds (sum_all_latencies rs)).

End Loadtest.

(* ===================================================================== *)
(** ** The result-channel guard

    [resultChanMutex] makes each [safeSend] and each [safeClose] one
    atomic step (both lock on entry and unlock on return), so an
    execution of the producers, the closer, the consumer and the
    deadline is a sequence of such steps.  A run-time panic is [None]. *)

Module Guard.

Import Loadtest.

(** A buffered channel [chan *Result]. *)
Record Chan : Type := mkChan {
  buf    : list Result;
  cap    : nat;
  closed : bool
}.

(** [make(chan *Result, n)] *)
Definition make (n : nat) : Chan := mkChan [] n false.

(** The state the two closures and the consumer share. *)
Record World : Type := mkWorld {
  resultChanClosed : bool;       (* the flag under the mutex *)
  resultsChan      : Chan;
  ctxDone          : bool;       (* [testCtx.Done()] is closed *)
  received         : list Result;(* what the consumer has taken *)
  closes           : nat;        (* executions of [close(resultsChan)] *)
  warnings         : nat         (* "result channel buffer full" lines *)
}.

Definition init (n : nat) : World := mkWorld false (make n) false [] 0 0.

Definition set_chan (c : Chan) (w : World) : World :=
  mkWorld (resultChanClosed w) c (ctxDone w) (received w) (closes w)
          (warnings w).

(** [close(c)]: closing a closed channel panics. *)
Definition chan_close (w : World) : option World :=
  let c := resultsChan w in
  if closed c then None
  else Some (mkWorld (resultChanClosed w) (mkChan (buf c) (cap c) true)
                     (ctxDone w) (received w) (S (closes w)) (warnings w)).

(** Whether [c <- r] can proceed at once: on a closed channel (it
    proceeds by panicking), when a receiver is parked on the empty
    channel, or when the buffer has room. *)
Definition send_ready (parked : bool) (c : Chan) : bool :=
  closed c
  || (parked && bool_decide (buf c = []))
  || bool_decide (length (buf c) < cap c)%nat.

(** [c <- r], once chosen: panic on a closed channel, direct hand-over to
    a parked receiver, or a place at the end of the buffer. *)
Definition chan_send (parked : bool) (r : Result) (w : World)
  : option World :=
  let c := resultsChan w in
  if closed c then None
  else if parked && bool_decide (buf c = []) then
    Some (mkWorld (resultChanClosed w) c (ctxDone w) (received w ++ [r])
                  (closes w) (warnings w))
  else Some (set_chan (mkChan (buf c ++ [r]) (cap c) false) w).

(** The communication cases of the [select] in [safeSend]. *)
Inductive SelectCase : Type := CaseDone | CaseSend.

(** A [select] with several cases that can proceed takes one of them by
    a uniform pseudo-random choice (The Go Programming Language
    Specification, Select statements); [pick] is the number drawn.  With
    no case ready the result is [None] and the [default] branch runs. *)
Definition select_choose (pick : nat) (ready : list SelectCase)
  : option SelectCase :=
  ready !! (pick mod length ready)%nat.

(** [safeSend := func(result *Result)] (the two copies in [runRPSTest] and
    [runConcurrentTest] are the same text). *)
Definition safeSend (pick : nat) (parked : bool) (result : Result)
    (w : World) : option World :=
  if negb (resultChanClosed w) then
    let ready :=
      (if ctxDone w then [CaseDone] else [])
      ++ (if send_ready parked (resultsChan w) then [CaseSend] else []) in
    match select_choose pick ready with
    | Some CaseDone => Some w                 (* context canceled, don't send *)
    | Some CaseSend => chan_send parked result w
    | None =>                                 (* default: buffer full *)
        Some (mkWorld (resultChanClosed w) (resultsChan w) (ctxDone w)
                      (received w) (closes w) (S (warnings w)))
    end
  else Some w.

(** [safeClose := func()] *)
Definition safeClose (w : World) : option World :=
  if negb (resultChanClosed w) then
    chan_close (mkWorld true (resultsChan w) (ctxDone w) (received w)
                        (closes w) (warnings w))
  else Some w.

(** The consumer's [result, ok := <-resultsChan]: it takes the oldest
    buffered outcome, if there is one. *)
Definition consumerRecv (w : World) : World :=
  match buf (resultsChan w) with
  | [] => w
  | r :: rest =>
      mkWorld (resultChanClosed w)
              (mkChan rest (cap (resultsChan w)) (closed (resultsChan w)))
              (ctxDone w) (received w ++ [r]) (closes w) (warnings w)
  end.

(** The deadline of [testCtx] passes, or [testCancel] is called. *)
Definition cancel (w : World) : World :=
  mkWorld (resultChanClosed w) (resultsChan w) true (received w) (closes w)
          (warnings w).

Inductive Event : Type :=
| Send (pick : nat) (parked : bool) (result : Result)
| Close
| Recv
| Cancel.

Definition step (e : Event) (w : World) : option World :=
  match e with
  | Send pick parked r => safeSend pick parked r w
  | Close => safeClose w
  | Recv => Some (consumerRecv w)
  | Cancel => Some (cancel w)
  end.

Fixpoint run (evs : list Event) (w : World) : option World :=
  match evs with
  | [] => Some w
  | e :: evs' =>
      match step e w with
      | Some w' => run evs' w'
      | None => None
      end
  end.

Definition is_Close (e : Event) : bool :=
  match e with
  | Close => true
  | _ => false
  end.

(** What the mutex-protected flag knows about the channel. *)
Definition guard_inv (w : World) : Prop :=
  closed (resultsChan w) = resultChanClosed w /\
  closes w = (if resultChanClosed w then 1 else 0)%nat.

End Guard.

(* ===================================================================== *)
(** ** The target validator *)

Module Target.

(** The two results of a Go function returning [(T, error)]. *)
Inductive result (T : Type) : Type :=
| Ok (v : T)
| Err (msg : string).
Arguments Ok {T} v.
Arguments Err {T} msg.

(** [func isURL(s string) bool] *)
Definition isURL (s : string) : bool :=
  let hasHTTP :=
    (7 <=? String.length s)%nat
    && String.eqb (substring 0 7 s) "http://" in
  let hasHTTPS :=
    (8 <=? String.length s)%nat
    && String.eqb (substring 0 8 s) "https://" in
  hasHTTP || hasHTTPS.

Section Validator.

(** [url.Parse] of the Go library [net/url], which the validator calls
    and whose verdict it returns unchanged. *)
Context {URL : Type} (url_Parse : string -> result URL).

(** [func (t *Tester) validateTarget()], which returns a parsed URL or an
    error, on the field [t.target]. *)
Definition validateTarget (target : string) : result URL :=
  let target := if negb (isURL target) then ("http://" ++ target)%string
                else target in
  match url_Parse target with
  | Err e => Err e
  | Ok parsedURL => Ok parsedURL
  end.

End Validator.

(** ASCII lower case of one byte, and of a string. *)
Definition lower_ascii (c : ascii) : ascii :=
  let n := nat_of_ascii c in
  if (65 <=? n)%nat && (n <=? 90)%nat then ascii_of_nat (n + 32) else c.

Fixpoint lower (s : string) : string :=
  match s with
  | EmptyString => EmptyString
  | String c s' => String (lower_ascii c) (lower s')
  end.

(** [s] starts with a spelling of [scheme] that differs from it in letter
    case only. *)
Definition case_variant_prefix (scheme s : string) : Prop :=
  exists pre rest : string,
    s = (pre ++ rest)%string /\ lower pre = scheme /\ pre <> scheme.

(** The prefix test in the specification's words. *)
Definition has_scheme_prefix (s : string) : bool :=
  String.prefix "http://" s || String.prefix "https://" s.

(** A parser to try the validator on: it accepts a string exactly when it
    holds no space. *)
Definition no_space_parse (s : string) : result string :=
  if existsb (Ascii.eqb " ") (list_ascii_of_string s)
  then Err "invalid character in host name"
  else Ok s.

End Target.

(* ===================================================================== *)
(** ** What an aggregate says about the outcomes it has consumed *)

Module Outcomes.

Import GoInt Loadtest.

(** The outcome carries no error ([r.Error == nil]). *)
Definition is_ok (r : Result) : bool :=
  match Error r with
  | None => true
  | Some _ => false
  end.

(** The latencies of the error-free outcomes, in arrival order. *)
Definition ok_latencies (rs : list Result) : list Z :=
  map Latency (List.filter is_ok rs).

(** The number of error-free outcomes with a given status code. *)
Definition count_code (code : Z) (rs : list Result) : Z :=
  len (List.filter (fun r => is_ok r && (StatusCode r =? code)) rs).

(** The minimum [Add] compares with: the field, or the sentinel while the
    map has not been made. *)
Definition effective_min (m : Metrics) : Z :=
  match StatusCodes m with
  | Some _ => MinLatency m
  | None => 24 * Hour
  end.

(** What [Add] keeps about the extremes, whatever the state it starts
    from. *)
Definition extremes_inv (m : Metrics) : Prop :=
  Forall (fun l => effective_min m <= l <= MaxLatency m) (Latencies m) /\
  effective_min m <= 24 * Hour /\ 0 <= MaxLatency m /\
  (effective_min m = 24 * Hour \/ In (effective_min m) (Latencies m)) /\
  (MaxLatency m = 0 \/ In (MaxLatency m) (Latencies m)).

(** Two aggregates that differ at most in the order of their samples. *)
Definition same_aggregate (m m' : Metrics) : Prop :=
  Requests m = Requests m' /\ Success m = Success m' /\
  Failures m = Failures m' /\ StatusCodes m = StatusCodes m' /\
  TotalLatency m = TotalLatency m' /\ MinLatency m = MinLatency m' /\
  MaxLatency m = MaxLatency m' /\
  Permutation (Latencies m) (Latencies m').

(** How many samples are at most, and how many are below, a value. *)
Definition count_le (p : Z) (l : list Z) : Z :=
  len (List.filter (fun x => x <=? p) l).

Definition count_lt (p : Z) (l : list Z) : Z :=
  len (List.filter (fun x => x <? p) l).

End Outcomes.

(* ===================================================================== *)
(** ** Executions of the guard *)

Module GuardRuns.

Import Loadtest Guard.

(** The outcomes that have reached the consumer or wait in the buffer. *)
Definition delivered (w : World) : list Result :=
  received w ++ buf (resultsChan w).

(** The outcomes handed to [safeSend] before the first [safeClose], in
    the order of the calls. *)
Fixpoint sent_before_close (evs : list Event) : list Result :=
  match evs with
  | [] => []
  | Send _ _ r :: evs' => r :: sent_before_close evs'
  | Close :: _ => []
  | _ :: evs' => sent_before_close evs'
  end.

Definition is_Cancel (e : Event) : bool :=
  match e with
  | Cancel => true
  | _ => false
  end.

(** The flag agrees with the channel and the buffer is within its
    capacity. *)
Definition good (w : World) : Prop :=
  guard_inv w /\ (length (buf (resultsChan w)) <= cap (resultsChan w))%nat.

End GuardRuns.

(* ===================================================================== *)
(** ** The rate-limited dispatcher of [runRPSTest] *)

Module Dispatcher.

Import GoInt Loadtest Target.

(** [a * b] on [int]. *)
Definition mul (a b : Z) : Z := wrap (a * b).

(** [int(duration.Seconds())] *)
Definition whole_seconds (duration : Z) : Z := F64.to_int (Seconds duration).

(** [t.rps*int(duration.Seconds())]: the capacity of [resultsChan] and the
    number of requests after which the sender stops. *)
Definition planned (rps duration : Z) : Z := mul rps (whole_seconds duration).

(** How [runRPSTest] gets to its loops: it returns the validator's error,
    or panics, or has its channel and its ticker. *)
Inductive Setup (URL : Type) : Type :=
| SetupErr (msg : string)
| SetupPanic (why : string)
| SetupReady (targetURL : URL) (capacity interval : Z).
Arguments SetupErr {URL} msg.
Arguments SetupPanic {URL} why.
Arguments SetupReady {URL} targetURL capacity interval.

Section Setup.

Context {URL : Type} (url_Parse : string -> result URL).

(** The largest capacity the run-time system accepts in
    [make(chan *Result, n)]. *)
Context (maxChan : Z).

(** [runRPSTest] up to [time.NewTicker(interval)]: [validateTarget], then
    [make(chan *Result, t.rps*int(duration.Seconds()))] (a panic for a
    negative or too large size), then
    [interval := time.Second / time.Duration(t.rps)] (a panic for a zero
    divisor) and [time.NewTicker(interval)] (a panic for an interval that
    is not positive). *)
Definition rpsSetup (target : string) (rps duration : Z) : Setup URL :=
  match validateTarget url_Parse target with
  | Err e => SetupErr e
  | Ok targetURL =>
      let capacity := planned rps duration in
      if (capacity <? 0) || (maxChan <? capacity)
      then SetupPanic "makechan: size out of range"
      else
        match div Second rps with
        | None => SetupPanic "integer divide by zero"
        | Some interval =>
            if interval <=? 0
            then SetupPanic "non-positive interval for NewTicker"
            else SetupReady targetURL capacity interval
        end
  end.

End Setup.

(** The case the sender's [select] takes in one round of its loop. *)
Inductive Select : Type := SelDone | SelTick.

Inductive Stop : Type := Running | StoppedByDeadline | StoppedByQuota.

(** The sender goroutine of [runRPSTest]: on [testCtx.Done()] it waits for
    its requests and returns; on a tick it starts one request, counts it
    ([sent++]) and returns once [sent >= planned].  The result is the
    number of requests started and how the loop ended. *)
Fixpoint dispatch (planned : Z) (sel : list Select) (sent : Z) : Z * Stop :=
  match sel with
  | [] => (sent, Running)
  | SelDone :: _ => (sent, StoppedByDeadline)
  | SelTick :: sel' =>
      let sent := incr sent in
      if sent >=? planned then (sent, StoppedByQuota)
      else dispatch planned sel' sent
  end.

Definition is_Tick (s : Select) : bool :=
  match s with
  | SelTick => true
  | SelDone => false
  end.

End Dispatcher.

(* ===================================================================== *)
(** ** Resource metrics and recommendations
       ([pkg/metrics/collector.go], [pkg/recommender/recommender.go]) *)

Module Recommender.

Import GoInt.

(** [x < y] on [float64]: false when either side is NaN. *)
Definition lt (x y : spec_float) : bool := SFltb x y.

(** [type ResourceMetrics struct]; the time stamp as nanoseconds. *)
Record ResourceMetrics : Type := mkResourceMetrics {
  Timestamp   : Z;
  CPUUsage    : spec_float;
  MemoryUsage : spec_float
}.

(** [type ResourceSettings struct] of package [kubernetes]. *)
Record ResourceSettings : Type := mkResourceSettings {
  curCPURequest    : spec_float;
  curCPULimit      : spec_float;
  curMemoryRequest : spec_float;
  curMemoryLimit   : spec_float
}.

(** [type Recommendations struct] *)
Record Recommendations : Type := mkRecommendations {
  CPURequest    : spec_float;
  CPULimit      : spec_float;
  MemoryRequest : spec_float;
  MemoryLimit   : spec_float
}.

(** [func CalculateAverageMetrics(metrics []ResourceMetrics)
     (float64, float64)] *)
Definition CalculateAverageMetrics (metrics : list ResourceMetrics)
  : spec_float * spec_float :=
  if len metrics =? 0 then (F64.zero, F64.zero)
  else
    let '(totalCPU, totalMemory) :=
      fold_left (fun '(c, m) x =>
                   (F64.add c (CPUUsage x), F64.add m (MemoryUsage x)))
                metrics (F64.zero, F64.zero) in
    (F64.div totalCPU (F64.of_int (len metrics)),
     F64.div totalMemory (F64.of_int (len metrics))).

(** One round of the loop of [CalculatePeakMetrics]. *)
Definition peak_step (peak : spec_float * spec_float) (m : ResourceMetrics)
  : spec_float * spec_float :=
  let '(peakCPU, peakMemory) := peak in
  (if lt peakCPU (CPUUsage m) then CPUUsage m else peakCPU,
   if lt peakMemory (MemoryUsage m) then MemoryUsage m else peakMemory).

(** [func CalculatePeakMetrics(metrics []ResourceMetrics)
     (float64, float64)] *)
Definition CalculatePeakMetrics (metrics : list ResourceMetrics)
  : spec_float * spec_float :=
  match metrics with
  | [] => (F64.zero, F64.zero)
  | m0 :: _ => fold_left peak_step metrics (CPUUsage m0, MemoryUsage m0)
  end.

(** The constants of [applyMinimumValues] as [float64]: 0.01 and 0.05
    are the nearest binary64 ([minimums_nearest] below), 32 and 64 are
    exact. *)
Definition minCPURequest : spec_float :=
  S754_finite false 5764607523034235 (-59).
Definition minCPULimit : spec_float :=
  S754_finite false 7205759403792794 (-57).
Definition minMemoryRequest : spec_float := F64.of_int 32.
Definition minMemoryLimit : spec_float := F64.of_int 64.

(** [func applyMinimumValues(r Recommendations) Recommendations] *)
Definition applyMinimumValues (r : Recommendations) : Recommendations :=
  let cpuRequest :=
    if lt (CPURequest r) minCPURequest then minCPURequest
    else CPURequest r in
  let cpuLimit :=
    if lt (CPULimit r) minCPULimit then minCPULimit else CPULimit r in
  let memoryRequest :=
    if lt (MemoryRequest r) minMemoryRequest then minMemoryRequest
    else MemoryRequest r in
  let memoryLimit :=
    if lt (MemoryLimit r) minMemoryLimit then minMemoryLimit
    else MemoryLimit r in
  (* limits are not smaller than requests *)
  let cpuLimit := if lt cpuLimit cpuRequest then cpuRequest else cpuLimit in
  let memoryLimit :=
    if lt memoryLimit memoryRequest then memoryRequest else memoryLimit in
  mkRecommendations cpuRequest cpuLimit memoryRequest memoryLimit.

(** [func GenerateRecommendations(allMetrics, currentSettings, margin)] *)
Definition GenerateRecommendations (allMetrics : list ResourceMetrics)
    (currentSettings : ResourceSettings) (margin : Z) : Recommendations :=
  let '(avgCPU, avgMemory) := CalculateAverageMetrics allMetrics in
  let '(peakCPU, peakMemory) := CalculatePeakMetrics allMetrics in
  let marginMultiplier :=
    F64.add (F64.of_int 1) (F64.div (F64.of_int margin) F64.c100) in
  applyMinimumValues
    (mkRecommendations (F64.mul avgCPU marginMultiplier)
                       (F64.mul peakCPU marginMultiplier)
                       (F64.mul avgMemory marginMultiplier)
                       (F64.mul peakMemory marginMultiplier)).

(** No field is below its minimum and no limit below its request, as
    [<] sees it. *)
Definition within_minimums (r : Recommendations) : Prop :=
  lt (CPURequest r) minCPURequest = false /\
  lt (CPULimit r) minCPULimit = false /\
  lt (MemoryRequest r) minMemoryRequest = false /\
  lt (MemoryLimit r) minMemoryLimit = false /\
  lt (CPULimit r) (CPURequest r) = false /\
  lt (MemoryLimit r) (MemoryRequest r) = false.

End Recommender.

(* ===================================================================== *)
(** ** Names and selectors from a target
       ([pkg/kubernetes], [pkg/output/printer.go]) *)

Module Names.

Import GoInt.

(** [strings.HasPrefix(s, prefix)] *)
Fixpoint HasPrefix (s prefix : string) {struct prefix} : bool :=
  match prefix with
  | EmptyString => true
  | String p prefix' =>
      match s with
      | EmptyString => false
      | String c s' => Ascii.eqb c p && HasPrefix s' prefix'
      end
  end.

(** [strings.Contains(s, substr)] *)
Fixpoint Contains (s substr : string) : bool :=
  HasPrefix s substr
  || match s with
     | EmptyString => false
     | String _ s' => Contains s' substr
     end.

(** [s[n:]] for [n <= len(s)]. *)
Fixpoint drop_bytes (n : nat) (s : string) : string :=
  match n, s with
  | S n', String _ s' => drop_bytes n' s'
  | _, _ => s
  end.

(** [strings.TrimPrefix(s, prefix)] *)
Definition TrimPrefix (s prefix : string) : string :=
  if HasPrefix s prefix then drop_bytes (String.length prefix) s else s.

(** [strings.Split(s, sep)] for a non-empty [sep]: the pieces between the
    occurrences of [sep], found from the left and not overlapping.
    [skip] counts the bytes of a separator still to pass over and [cur] is
    the piece being read. *)
Fixpoint split_from (sep : string) (skip : nat) (cur s : string)
  : list string :=
  match s with
  | EmptyString => [cur]
  | String c s' =>
      match skip with
      | S k => split_from sep k cur s'
      | O =>
          if HasPrefix s sep
          then cur :: split_from sep (String.length sep - 1) EmptyString s'
          else split_from sep 0 (cur ++ String c EmptyString) s'
      end
  end.

Definition Split (s sep : string) : list string := split_from sep 0 "" s.

(** [func extractSelector(target string) string] of package
    [kubernetes]; [None] is an index out of range. *)
Definition extractSelector (target : string) : option string :=
  let after_url :=
    if HasPrefix target "http://" || HasPrefix target "https://" then
      let parts := Split target "//" in
      if len parts >? 1 then
        match index parts 1 with
        | Some host =>
            match index (Split host ":") 0 with
            | Some name => Some name
            | None => None
            end
        | None => None
        end
      else Some target
    else Some target in
  match after_url with
  | None => None
  | Some target =>
      if Contains target "=" then Some target
      else Some ("app=" ++ target)%string
  end.

(** [func extractResourceName(target string) string] of package
    [output]. *)
Definition extractResourceName (target : string) : option string :=
  if HasPrefix target "http://" then
    index (Split (TrimPrefix target "http://") ":") 0
  else if HasPrefix target "https://" then
    index (Split (TrimPrefix target "https://") ":") 0
  else if Contains target "=" then
    let parts := Split target "=" in
    if len parts >? 1 then index parts 1 else Some target
  else Some target.

(** The bytes of a string before its first [c], or all of them. *)
Fixpoint before (c : ascii) (s : string) : string :=
  match s with
  | EmptyString => EmptyString
  | String a s' => if Ascii.eqb a c then EmptyString else String a (before c s')
  end.

End Names.

(* ===================================================================== *)
(** * Properties *)

Import Loadtest.

(** ** Machine integers *)

Section WrapFacts.

Import GoInt.

Lemma wrap_in_range z : in_range (wrap z).
Proof.
  unfold in_range, wrap, MinInt64, MaxInt64.
  pose proof (Z.mod_pos_bound (z + 2 ^ 63) (2 ^ 64) ltac:(lia)). lia.
Qed.

Lemma wrap_small z : in_range z -> wrap z = z.
Proof.
  unfold in_range, wrap, MinInt64, MaxInt64. intros Hz.
  rewrite Z.mod_small; lia.
Qed.

Lemma wrap_add_l a b : wrap (wrap a + b) = wrap (a + b).
Proof.
  unfold wrap.
  replace ((a + 2 ^ 63) mod 2 ^ 64 - 2 ^ 63 + b + 2 ^ 63)
    with ((a + 2 ^ 63) mod 2 ^ 64 + b) by lia.
  rewrite Zplus_mod_idemp_l. do 2 f_equal. lia.
Qed.

Lemma wrap_add_r a b : wrap (a + wrap b) = wrap (a + b).
Proof. rewrite Z.add_comm, wrap_add_l. f_equal. lia. Qed.

Lemma len_nonneg {A} (l : list A) : 0 <= len l.
Proof. unfold len. lia. Qed.

Lemma len_app {A} (l k : list A) : len (l ++ k) = len l + len k.
Proof. unfold len. rewrite length_app. lia. Qed.

End WrapFacts.

(** ** The aggregator: counters *)

Section AddFacts.

Import GoInt.

Lemma AddAll_snoc rs r m : AddAll (rs ++ [r]) m = Add r (AddAll rs m).
Proof. unfold AddAll. by rewrite fold_left_app. Qed.

Lemma Add_counts_balanced r m :
  counts_balanced m -> counts_balanced (Add r m).
Proof.
  unfold counts_balanced, Add, incr, add. intros <-.
  destruct (Error r); [|destruct (_ && _)]; simpl;
    rewrite ?wrap_add_l, ?wrap_add_r; f_equal; lia.
Qed.

Lemma AddAll_counts_balanced rs m :
  counts_balanced m -> counts_balanced (AddAll rs m).
Proof.
  revert m. induction rs as [|r rs IH]; intros m Hm; [exact Hm|].
  simpl. apply IH, Add_counts_balanced, Hm.
Qed.

Lemma Add_Requests r m : Requests (Add r m) = wrap (Requests m + 1).
Proof. unfold Add. destruct (Error r); [|destruct (_ && _)]; reflexivity. Qed.

Lemma AddAll_Requests rs m :
  Requests (AddAll rs m) = wrap (Requests m + len rs) \/ rs = [].
Proof.
  induction rs as [|r rs IH] using rev_ind; [by right|left].
  rewrite AddAll_snoc, Add_Requests, len_app.
  destruct IH as [->| ->].
  - rewrite wrap_add_l. f_equal. unfold len. simpl. lia.
  - simpl. f_equal.
Qed.

(** C3: for every sequence of outcomes fed to the aggregator through
    [Add], starting from the zero aggregate, the aggregate after each
    single [Add] (that is, after every non-empty prefix [rs ++ [r]])
    satisfies success count + failure count == total request count, the
    sum and the comparison being Go's on [int]. *)
Theorem Add_success_plus_failures_is_total (rs : list Result) (r : Result) :
  let m := Add r (AddAll rs zeroMetrics) in
  add (Success m) (Failures m) = Requests m.
Proof.
  simpl. apply Add_counts_balanced, AddAll_counts_balanced. reflexivity.
Qed.

(** Below 2^63 outcomes no counter has wrapped and the sum is the
    mathematical one. *)
Lemma AddAll_counts_exact rs :
  len rs <= MaxInt64 ->
  let m := AddAll rs zeroMetrics in
  0 <= Success m /\ 0 <= Failures m /\ Requests m = len rs /\
  Success m + Failures m = Requests m.
Proof.
  induction rs as [|r rs IH] using rev_ind; intros Hlen;
    [cbv zeta; unfold len; simpl; lia|].
  rewrite len_app in Hlen. unfold len in Hlen at 2. simpl in Hlen.
  cbv zeta in *. rewrite AddAll_snoc, len_app.
  destruct IH as (Hs & Hf & Hr & Hsum); [lia|].
  pose proof (len_nonneg rs) as Hn. unfold MaxInt64 in Hlen.
  unfold Add, incr, add.
  destruct (Error r); [|destruct (_ && _)]; simpl;
    rewrite !wrap_small by (unfold in_range, MinInt64, MaxInt64; lia);
    unfold len at 2; simpl; lia.
Qed.

(** C6: an error-free outcome consumed by [Add] counts as a success
    exactly when its status code lies in [200, 400), and as a failure
    otherwise; status 199 and 400 increment the failure count, 200 and 399
    the success count. *)
Theorem Add_classifies_by_status (m : Metrics) (lat code : Z) :
  let m' := Add (mkResult lat code None) m in
  (200 <= code < 400 ->
     Success m' = incr (Success m) /\ Failures m' = Failures m) /\
  (~ 200 <= code < 400 ->
     Success m' = Success m /\ Failures m' = incr (Failures m)) /\
  (forall c, In c [199; 400] -> forall l,
     Success (Add (mkResult l c None) m) = Success m /\
     Failures (Add (mkResult l c None) m) = incr (Failures m)) /\
  (forall c, In c [200; 399] -> forall l,
     Success (Add (mkResult l c None) m) = incr (Success m) /\
     Failures (Add (mkResult l c None) m) = Failures m).
Proof.
  cbv zeta. unfold Add. simpl Error. simpl StatusCode.
  split; [|split; [|split]].
  - intros H. rewrite Z.geb_leb.
    destruct (_ && _) eqn:E; [split; reflexivity|].
    apply andb_false_iff in E. lia.
  - intros H. rewrite Z.geb_leb.
    destruct (_ && _) eqn:E; [|split; reflexivity].
    apply andb_true_iff in E. lia.
  - intros c Hc l. simpl in Hc.
    destruct Hc as [<-|[<-|[]]]; split; reflexivity.
  - intros c Hc l. simpl in Hc.
    destruct Hc as [<-|[<-|[]]]; split; reflexivity.
Qed.

(** C7: an [Add] of an outcome that carries an error increases the total
    request count and the failure count by one each and nothing else: the
    histogram's contents, the cumulative latency, the latency samples, the
    success count and the maximum latency stay as they were, and the
    minimum latency is either kept or, on the first call, set to the
    24-hour sentinel; it never takes the errored outcome's latency
    otherwise. *)
Theorem Add_error_frame (m : Metrics) (lat code : Z) (e : string) :
  let m' := Add (mkResult lat code (Some e)) m in
  Requests m' = incr (Requests m) /\
  Failures m' = incr (Failures m) /\
  Success m' = Success m /\
  histogram m' = histogram m /\
  StatusCodes m' = Some (histogram m) /\
  TotalLatency m' = TotalLatency m /\
  Latencies m' = Latencies m /\
  MaxLatency m' = MaxLatency m /\
  MinLatency m' = match StatusCodes m with
                  | Some _ => MinLatency m
                  | None => 24 * Hour
                  end.
Proof.
  cbv zeta. unfold Add, histogram. simpl.
  destruct (StatusCodes m); repeat split; reflexivity.
Qed.

End AddFacts.

(** ** The result-channel guard *)

Section GuardFacts.

Import Guard.

Lemma init_guard_inv n : guard_inv (init n).
Proof. split; reflexivity. Qed.

Lemma select_choose_nil pick : select_choose pick [] = None.
Proof. reflexivity. Qed.

Lemma select_choose_one pick c : select_choose pick [c] = Some c.
Proof.
  unfold select_choose. simpl length.
  by rewrite Nat.mod_1_r.
Qed.

Lemma select_choose_two pick c d :
  select_choose pick [c; d] = Some (if Nat.even pick then c else d).
Proof.
  unfold select_choose. simpl length.
  destruct (Nat.even pick) eqn:E.
  - apply Nat.even_spec in E as [k ->].
    by rewrite Nat.mul_comm, Nat.Div0.mod_mul.
  - assert (Nat.odd pick = true) as [k ->]%Nat.odd_spec
      by (by rewrite <- Nat.negb_even, E).
    replace ((2 * k + 1) mod 2)%nat with 1%nat; [done|].
    rewrite Nat.add_comm, Nat.mul_comm, Nat.Div0.mod_add. done.
Qed.

(** Once the flag is set, [safeSend] changes nothing at all. *)
Lemma safeSend_closed pick parked r w :
  resultChanClosed w = true -> safeSend pick parked r w = Some w.
Proof. unfold safeSend. by intros ->. Qed.

Lemma safeSend_inv pick parked r w :
  guard_inv w ->
  exists w', safeSend pick parked r w = Some w' /\ guard_inv w' /\
             resultChanClosed w' = resultChanClosed w.
Proof.
  intros [Hc Hn]. unfold safeSend.
  destruct (resultChanClosed w) eqn:Hflag; simpl.
  { exists w. unfold guard_inv. by rewrite Hflag. }
  destruct (select_choose _ _) as [[]|].
  - exists w. unfold guard_inv. by rewrite Hflag.
  - unfold chan_send. rewrite Hc.
    destruct (parked && _); eexists; (split; [reflexivity|]);
      unfold guard_inv; simpl; by rewrite ?Hflag.
  - eexists; split; [reflexivity|]. unfold guard_inv; simpl.
    by rewrite ?Hflag.
Qed.

Lemma safeClose_inv w :
  guard_inv w ->
  exists w', safeClose w = Some w' /\ guard_inv w' /\
             resultChanClosed w' = true.
Proof.
  intros [Hc Hn]. unfold safeClose.
  destruct (resultChanClosed w) eqn:Hflag; simpl.
  { exists w. unfold guard_inv. by rewrite Hflag. }
  unfold chan_close. simpl. rewrite Hc.
  eexists; split; [reflexivity|]. unfold guard_inv; simpl. by rewrite Hn.
Qed.

Lemma step_inv e w :
  guard_inv w ->
  exists w', step e w = Some w' /\ guard_inv w' /\
             resultChanClosed w' = resultChanClosed w || is_Close e.
Proof.
  intros Hinv. destruct e as [pick parked r| | |]; simpl.
  - destruct (safeSend_inv pick parked r w Hinv) as (w' & -> & ? & Hf).
    exists w'. by rewrite orb_false_r.
  - destruct (safeClose_inv w Hinv) as (w' & -> & ? & Hf).
    exists w'. by rewrite orb_true_r.
  - eexists; split; [reflexivity|]. destruct Hinv as [Hc Hn].
    rewrite orb_false_r. unfold consumerRecv.
    by destruct (buf (resultsChan w)).
  - eexists; split; [reflexivity|]. by rewrite orb_false_r.
Qed.

Lemma run_inv evs w :
  guard_inv w ->
  exists w', run evs w = Some w' /\ guard_inv w' /\
             resultChanClosed w' = resultChanClosed w || existsb is_Close evs.
Proof.
  revert w. induction evs as [|e evs IH]; intros w Hinv; simpl.
  - exists w. by rewrite orb_false_r.
  - destruct (step_inv e w Hinv) as (w1 & -> & Hinv1 & Hflag1).
    destruct (IH w1 Hinv1) as (w2 & -> & Hinv2 & Hflag2).
    exists w2. by rewrite Hflag2, Hflag1, orb_assoc.
Qed.

(** C1: in every execution of the guard (any sequence of sends, closes,
    consumer receives and the cancellation, from the freshly made channel)
    nothing panics and [close(resultsChan)] has been executed exactly once
    if a [safeClose] was invoked, however many were, and never otherwise;
    after a completed [safeClose] the flag is set and stays set whatever
    follows, and every later [safeSend] leaves the whole state as it is:
    nothing is queued, nothing is handed to the consumer. *)
Theorem guard_closes_once_and_drops_after (n : nat) (evs post : list Event) :
  (exists w, run evs (init n) = Some w /\
             resultChanClosed w = existsb is_Close evs /\
             closes w = (if existsb is_Close evs then 1 else 0)%nat) /\
  (exists w, run (evs ++ Close :: post) (init n) = Some w /\
             resultChanClosed w = true /\
             closes w = 1%nat /\
             forall pick parked r, step (Send pick parked r) w = Some w).
Proof.
  split.
  - destruct (run_inv evs _ (init_guard_inv n)) as (w & Hrun & [_ Hn] & Hf).
    exists w. simpl in Hf. by rewrite Hn, Hf.
  - destruct (run_inv (evs ++ Close :: post) _ (init_guard_inv n))
      as (w & Hrun & [_ Hn] & Hf).
    exists w. rewrite existsb_app in Hf. simpl in Hf.
    rewrite orb_true_r in Hf. rewrite Hn, Hf.
    repeat split; [done|]. intros. by apply safeSend_closed.
Qed.

(** After the deadline, with the flag not yet set: the [select] has the
    [testCtx.Done()] case ready and, when the channel can take the
    outcome, the send case as well, and the draw decides. *)
Lemma safeSend_after_deadline pick parked r w :
  guard_inv w -> resultChanClosed w = false -> ctxDone w = true ->
  safeSend pick parked r w =
    if send_ready parked (resultsChan w) && Nat.odd pick
    then chan_send parked r w
    else Some w.
Proof.
  intros [Hc _] Hflag Hdone. unfold safeSend. rewrite Hflag, Hdone.
  cbn [negb]. destruct (send_ready parked (resultsChan w)); cbn [app andb].
  - rewrite select_choose_two, <- Nat.negb_even.
    by destruct (Nat.even pick).
  - by rewrite select_choose_one.
Qed.

(** With a full buffer and no receiver waiting, a send after the deadline
    is dropped without the backpressure warning. *)
Lemma safeSend_after_deadline_full pick r w :
  guard_inv w -> resultChanClosed w = false -> ctxDone w = true ->
  (cap (resultsChan w) <= length (buf (resultsChan w)))%nat ->
  safeSend pick false r w = Some w.
Proof.
  intros Hinv Hflag Hdone Hfull.
  rewrite safeSend_after_deadline by done.
  destruct Hinv as [Hc _]. unfold send_ready. rewrite Hc, Hflag. simpl.
  rewrite bool_decide_eq_false_2; [done|lia].
Qed.

(** C2 (the code departs from it): the guard is open, the deadline has
    fired, the buffer has room, and the [select] draws its send case: the
    outcome is enqueued, where the specification has it dropped.  The same send
    with the other draw is dropped. *)
Theorem safeSend_after_deadline_can_enqueue :
  let r := mkResult 5 200 None in
  exists w,
    run [Cancel] (init 1) = Some w /\
    resultChanClosed w = false /\ ctxDone w = true /\
    (exists w', safeSend 1 false r w = Some w' /\
                buf (resultsChan w') = [r] /\ warnings w' = 0%nat) /\
    safeSend 0 false r w = Some w.
Proof.
  simpl. eexists. split; [reflexivity|]. simpl.
  repeat split. eexists. split; [reflexivity|]. by split.
Qed.

End GuardFacts.

(** ** The target validator *)

Section TargetFacts.

Import Target.

Lemma prefix_substring (p s : string) :
  String.prefix p s =
  (String.length p <=? String.length s)%nat
  && String.eqb (substring 0 (String.length p) s) p.
Proof.
  revert s. induction p as [|a p IH]; intros [|b s]; simpl; try reflexivity.
  rewrite IH. destruct (ascii_dec a b) as [->|Hne].
  - by rewrite Ascii.eqb_refl.
  - destruct (Ascii.eqb_spec b a) as [->|_]; [done|].
    by rewrite andb_false_r.
Qed.

(** The code's slicing test is the prefix test. *)
Lemma isURL_prefix s : isURL s = has_scheme_prefix s.
Proof.
  unfold isURL, has_scheme_prefix. by rewrite !prefix_substring.
Qed.

Lemma prefix_app (p s : string) :
  String.prefix p s = true -> exists rest, s = (p ++ rest)%string.
Proof.
  revert s. induction p as [|a p IH]; intros s H.
  - by exists s.
  - destruct s as [|b s]; simpl in H; [done|].
    destruct (ascii_dec a b) as [->|]; [|done].
    destruct (IH s H) as [rest ->]. by exists rest.
Qed.

Lemma isURL_true s :
  isURL s = true ->
  exists rest, s = ("http://" ++ rest)%string
            \/ s = ("https://" ++ rest)%string.
Proof.
  rewrite isURL_prefix. unfold has_scheme_prefix.
  intros [H|H]%orb_true_iff; apply prefix_app in H as [rest ->];
    exists rest; auto.
Qed.

Section WithParser.

Context {URL : Type} (url_Parse : string -> result URL).

Lemma validateTarget_eq t :
  validateTarget url_Parse t =
  url_Parse (if isURL t then t else ("http://" ++ t)%string).
Proof.
  unfold validateTarget. destruct (isURL t); simpl;
    by destruct (url_Parse _).
Qed.

(** C9: the validator hands to the URL parser the target itself when it
    starts with "http://" or "https://" and "http://" followed by the
    target otherwise, and returns the parser's verdict: it fails exactly
    when that string does not parse.  So "example.com" is parsed as
    "http://example.com", "https://example.com" as it stands, and
    "::not a url::" as "http://::not a url::", which is an error whenever
    the parser rejects it. *)
Theorem validateTarget_prepends_and_reports (t : string) :
  let normalized :=
    if has_scheme_prefix t then t else ("http://" ++ t)%string in
  validateTarget url_Parse t = url_Parse normalized /\
  ((exists e, validateTarget url_Parse t = Err e) <->
   (exists e, url_Parse normalized = Err e)) /\
  validateTarget url_Parse "example.com" = url_Parse "http://example.com" /\
  validateTarget url_Parse "https://example.com"
    = url_Parse "https://example.com" /\
  validateTarget url_Parse "::not a url::"
    = url_Parse "http://::not a url::" /\
  (forall e, url_Parse "http://::not a url::" = Err e ->
             validateTarget url_Parse "::not a url::" = Err e).
Proof.
  cbv zeta. rewrite <- isURL_prefix, !validateTarget_eq. simpl.
  repeat split; auto.
Qed.

(** Reading a case variant of a scheme letter by letter. *)
Ltac peel_lower H pre :=
  let c := fresh "c" in
  destruct pre as [|c pre]; [discriminate H|];
  simpl in H; injection H as ? H.

Lemma case_variant_not_URL s :
  case_variant_prefix "http://" s \/ case_variant_prefix "https://" s ->
  isURL s = false.
Proof.
  intros Hvar. destruct (isURL s) eqn:HU; [exfalso|reflexivity].
  apply isURL_true in HU as [rest' Hs].
  destruct Hvar as [(pre & rest & -> & Hlow & Hne)
                   |(pre & rest & -> & Hlow & Hne)].
  - do 7 peel_lower Hlow pre.
    destruct pre; [|discriminate Hlow].
    destruct Hs as [Hs|Hs]; simpl in Hs; simplify_eq; done.
  - do 8 peel_lower Hlow pre.
    destruct pre; [|discriminate Hlow].
    destruct Hs as [Hs|Hs]; simpl in Hs; simplify_eq; done.
Qed.

(** C10: scheme detection is case-sensitive.  A target that starts with
    "http://" or "https://" spelled with some letter in the other case
    (such as "HTTP://example.com") is not recognised by [isURL], and the
    validator parses "http://" followed by the whole target. *)
Theorem isURL_is_case_sensitive (s : string) :
  case_variant_prefix "http://" s \/ case_variant_prefix "https://" s ->
  isURL s = false /\
  validateTarget url_Parse s = url_Parse ("http://" ++ s)%string.
Proof.
  intros H%case_variant_not_URL. split; [done|].
  by rewrite validateTarget_eq, H.
Qed.

End WithParser.

(** The validator on the targets of the specification, with a parser that
    rejects a space as [url.Parse] does in a host name. *)
Example validateTarget_examples :
  validateTarget no_space_parse "example.com" = Ok "http://example.com"%string /\
  validateTarget no_space_parse "https://example.com"
    = Ok "https://example.com"%string /\
  validateTarget no_space_parse "::not a url::"
    = Err "invalid character in host name".
Proof. repeat split. Qed.

Lemma isURL_is_case_sensitive_witness :
  case_variant_prefix "http://" "HTTP://example.com" /\
  isURL "HTTP://example.com" = false /\
  validateTarget no_space_parse "HTTP://example.com"
    = Ok "http://HTTP://example.com"%string.
Proof.
  assert (case_variant_prefix "http://" "HTTP://example.com") as Hvar.
  { exists "HTTP://"%string, "example.com"%string.
    split; [reflexivity|]. split; [reflexivity|discriminate]. }
  split; [exact Hvar|].
  apply (isURL_is_case_sensitive no_space_parse "HTTP://example.com").
  left. exact Hvar.
Defined.

End TargetFacts.

(** ** Binary64 rounding

    What the multiplication and the conversions of [P95Latency] compute,
    read off the definitions of [SpecFloat]. *)

Section FloatFacts.

Local Abbreviation shr_rel := F64.shr_rel.
Local Abbreviation m095 := F64.m095.

Lemma digits2_pos_step (p : positive) (q : Z) :
  2 ^ (Z.pos (digits2_pos p) - 1) <= Z.pos p < 2 ^ Z.pos (digits2_pos p) ->
  2 * Z.pos p <= q <= 2 * Z.pos p + 1 ->
  2 ^ (Z.pos (Pos.succ (digits2_pos p)) - 1) <= q
    < 2 ^ Z.pos (Pos.succ (digits2_pos p)).
Proof.
  rewrite Pos2Z.inj_succ.
  replace (Z.succ (Z.pos (digits2_pos p)) - 1) with (Z.pos (digits2_pos p))
    by lia.
  rewrite Z.pow_succ_r by lia.
  replace (2 ^ Z.pos (digits2_pos p))
    with (2 * 2 ^ (Z.pos (digits2_pos p) - 1)).
  - generalize (2 ^ (Z.pos (digits2_pos p) - 1)). intros. lia.
  - rewrite <- Z.pow_succ_r by lia. f_equal. lia.
Qed.

Lemma digits2_pos_bounds (p : positive) :
  2 ^ (Z.pos (digits2_pos p) - 1) <= Z.pos p < 2 ^ Z.pos (digits2_pos p).
Proof.
  induction p as [p IH|p IH|]; simpl digits2_pos.
  - apply digits2_pos_step; [exact IH|lia].
  - apply digits2_pos_step; [exact IH|lia].
  - simpl. lia.
Qed.

Lemma digits2_pos_unique (p : positive) (d : Z) :
  2 ^ (d - 1) <= Z.pos p < 2 ^ d -> Z.pos (digits2_pos p) = d.
Proof.
  intros [Hlo Hhi]. pose proof (digits2_pos_bounds p) as [Hlo' Hhi'].
  set (d' := Z.pos (digits2_pos p)) in *.
  assert (0 < d) as Hd.
  { destruct (Z.lt_ge_cases 0 d) as [|Hle]; [done|].
    assert (2 ^ d <= 2 ^ 0) by (apply Z.pow_le_mono_r; lia).
    simpl in *. lia. }
  destruct (Z.lt_trichotomy d' d) as [Hlt|[Heq|Hgt]]; [|done|].
  - assert (2 ^ d' <= 2 ^ (d - 1)) by (apply Z.pow_le_mono_r; lia). lia.
  - assert (2 ^ d <= 2 ^ (d' - 1)) by (apply Z.pow_le_mono_r; lia). lia.
Qed.

Lemma iter_pos_nat {A} (f : A -> A) (p : positive) (x : A) :
  SpecFloat.iter_pos f p x = Nat.iter (Pos.to_nat p) f x.
Proof.
  revert x. induction p as [p IH|p IH|]; intros x; simpl SpecFloat.iter_pos.
  - rewrite !IH, Pos2Nat.inj_xI.
    replace (2 * Pos.to_nat p)%nat
      with (Pos.to_nat p + Pos.to_nat p)%nat by lia.
    by rewrite Nat.iter_succ_r, Nat.iter_add.
  - rewrite !IH, Pos2Nat.inj_xO.
    replace (2 * Pos.to_nat p)%nat
      with (Pos.to_nat p + Pos.to_nat p)%nat by lia.
    by rewrite Nat.iter_add.
  - reflexivity.
Qed.

Lemma shr_rel_start (P : Z) :
  0 <= P -> shr_rel P 1 (Build_shr_record P false false).
Proof. intros HP. exists 0. simpl. repeat split; lia. Qed.

Lemma shr_1_nonneg (m : Z) (r s : bool) :
  0 <= m ->
  exists (m' : Z) (b : bool),
    shr_1 (Build_shr_record m r s) = Build_shr_record m' b (r || s) /\
    0 <= m' /\ m = 2 * m' + (if b then 1 else 0).
Proof.
  intros Hm. destruct m as [|[p|p|]|p]; simpl; [| | | |lia].
  - exists 0, false. repeat split; lia.
  - exists (Z.pos p), true. repeat split; lia.
  - exists (Z.pos p), false. repeat split; lia.
  - exists 0, true. repeat split; lia.
Qed.

Lemma shr_rel_step (P U : Z) (mrs : shr_record) :
  0 < U -> shr_rel P U mrs -> shr_rel P (2 * U) (shr_1 mrs).
Proof.
  intros HU (rem & Hrem & HP & Hm & Hr & Hs).
  destruct mrs as [m r s]. cbn [shr_m shr_r shr_s] in *.
  destruct (shr_1_nonneg m r s Hm) as (m' & b & -> & Hm' & Hmb).
  exists ((if b then U else 0) + rem). cbn [shr_m shr_r shr_s]. subst r s.
  destruct b; repeat split; try lia;
    repeat match goal with
           | |- context [?x <=? ?y] => destruct (Z.leb_spec x y)
           | |- context [?x =? ?y] => destruct (Z.eqb_spec x y)
           end; simpl; try reflexivity; lia.
Qed.

Lemma shr_rel_iter (P : Z) (k : nat) :
  0 <= P ->
  shr_rel P (2 ^ Z.of_nat k)
          (Nat.iter k shr_1 (Build_shr_record P false false)).
Proof.
  intros HP. induction k as [|k IH].
  - apply shr_rel_start, HP.
  - rewrite Nat2Z.inj_succ, Z.pow_succ_r by lia. simpl.
    apply shr_rel_step; [lia|exact IH].
Qed.

(** Round-to-nearest-even of a shifted mantissa is within half a unit. *)
Lemma round_nearest_even_bounds (P U : Z) (mrs : shr_record) :
  0 < U -> shr_rel P U mrs ->
  let R := round_nearest_even (shr_m mrs) (loc_of_shr_record mrs) in
  shr_m mrs <= R <= shr_m mrs + 1 /\
  2 * (R * U) <= 2 * P + U /\ 2 * P <= 2 * (R * U) + U.
Proof.
  intros HU (rem & Hrem & HP & Hm & Hr & Hs).
  destruct mrs as [m r s]. simpl in *. subst r s P.
  destruct (Z.leb_spec U (2 * rem)), (Z.eqb_spec rem 0),
    (Z.eqb_spec (2 * rem) U); simpl; try destruct (Z.even m); lia.
Qed.

Lemma pow2_split (a b : Z) : 0 <= a -> 0 <= b -> 2 ^ (a + b) = 2 ^ a * 2 ^ b.
Proof. intros. by rewrite Z.pow_add_r. Qed.

(** A mantissa of 53 bits, or the 54-bit [2^53] a rounding can carry
    into, is left as it is or halved by the second alignment. *)
Lemma shr_fexp_canonical (R e : Z) :
  2 ^ 52 <= R <= 2 ^ 53 -> -1074 <= e ->
  exists (mrs : shr_record) (e' : Z) (m : positive),
    shr_fexp 53 1024 R e loc_Exact = (mrs, e') /\ shr_m mrs = Z.pos m /\
    ((e' = e /\ Z.pos m = R) \/ (e' = e + 1 /\ 2 * Z.pos m = R)).
Proof.
  intros HR He. destruct R as [|r|r]; [lia| |lia].
  unfold shr_fexp, fexp, emin. cbn [Zdigits2 shr_record_of_loc].
  destruct (Z.eq_dec (Z.pos r) (2 ^ 53)) as [Heq|Hne].
  - assert (r = 9007199254740992%positive) as -> by lia.
    change (digits2_pos 9007199254740992) with 54%positive.
    replace (Z.max (54 + e - 53) (3 - 1024 - 53) - e) with 1 by lia.
    eexists _, _, 4503599627370496%positive. split; [reflexivity|].
    split; [reflexivity|]. right. split; reflexivity.
  - rewrite (digits2_pos_unique r 53) by (simpl; lia).
    replace (Z.max (53 + e - 53) (3 - 1024 - 53) - e) with 0 by lia.
    eexists _, _, r. split; [reflexivity|]. split; [reflexivity|].
    left. split; reflexivity.
Qed.

(** Rounding a positive mantissa of more than 53 bits to binary64: the
    result is finite, and its value is a multiple [R] of the unit [U] that
    lies within half a unit of [P]. *)
Lemma binary_round_aux_pos (P : positive) (E : Z) :
  let d := Z.pos (digits2_pos P) in
  let U := 2 ^ (d - 53) in
  53 < d -> -1074 <= d + E - 53 -> d + E <= 1023 ->
  exists (R : Z) (m : positive) (e : Z),
    binary_round_aux 53 1024 false (Z.pos P) E loc_Exact
      = S754_finite false m e /\
    2 * (R * U) <= 2 * Z.pos P + U /\ 2 * Z.pos P <= 2 * (R * U) + U /\
    ((e = E + (d - 53) /\ Z.pos m = R) \/
     (e = E + (d - 53) + 1 /\ 2 * Z.pos m = R)).
Proof.
  intros d U Hd Hlo Hhi.
  unfold binary_round_aux.
  unfold shr_fexp at 1. unfold fexp, emin.
  cbn [Zdigits2 shr_record_of_loc]. fold d.
  replace (Z.max (d + E - 53) (3 - 1024 - 53) - E) with (d - 53) by lia.
  destruct (d - 53) as [|n|n] eqn:Hn; [lia| |lia].
  cbn [shr]. rewrite iter_pos_nat.
  pose proof (shr_rel_iter (Z.pos P) (Pos.to_nat n) ltac:(lia)) as Hrel.
  rewrite positive_nat_Z in Hrel. fold U in Hrel.
  set (mrs := Nat.iter _ _ _) in *.
  assert (0 < U) as HU by (apply Z.pow_pos_nonneg; lia).
  pose proof (round_nearest_even_bounds _ _ _ HU Hrel) as (HR & HRl & HRu).
  set (R := round_nearest_even _ _) in *.
  assert (2 ^ 52 <= R <= 2 ^ 53) as HR53.
  { pose proof (digits2_pos_bounds P) as [HPl HPu]. fold d in HPl, HPu.
    replace (d - 1) with (52 + Z.pos n) in HPl by lia.
    replace d with (53 + Z.pos n) in HPu by lia.
    rewrite pow2_split in HPl, HPu by lia. fold U in HPl, HPu.
    destruct Hrel as (rem & Hrem & HP & Hm & _).
    split; nia. }
  destruct (shr_fexp_canonical R (E + Z.pos n) HR53 ltac:(lia))
    as (mrs2 & e2 & m & -> & Hm2 & Hcase).
  rewrite Hm2.
  replace (e2 <=? 1024 - 53) with true
    by (symmetry; apply Z.leb_le; lia).
  exists R, m, e2. repeat split; try lia.
Qed.

(** A mantissa of exactly 53 bits in the exponent range is its own
    rounding. *)
Lemma binary_round_aux_exact (sx : bool) (m : positive) (e : Z) :
  Z.pos (digits2_pos m) = 53 -> -1074 <= e <= 971 ->
  binary_round_aux 53 1024 sx (Z.pos m) e loc_Exact = S754_finite sx m e.
Proof.
  intros Hd He. unfold binary_round_aux, shr_fexp, fexp, emin.
  cbn [Zdigits2 shr_record_of_loc]. rewrite Hd.
  replace (Z.max (53 + e - 53) (3 - 1024 - 53) - e) with 0 by lia.
  cbn [shr shr_m loc_of_shr_record round_nearest_even Zdigits2
       shr_record_of_loc].
  rewrite Hd.
  replace (Z.max (53 + e - 53) (3 - 1024 - 53) - e) with 0 by lia.
  cbn [shr shr_m].
  by replace (e <=? 1024 - 53) with true by (symmetry; apply Z.leb_le; lia).
Qed.

Lemma pos_iter_xO (p n : positive) :
  Z.pos (Pos.iter xO p n) = Z.pos p * 2 ^ Z.pos n.
Proof.
  induction n as [|n IH] using Pos.peano_ind.
  - simpl. lia.
  - rewrite Pos.iter_succ, Pos2Z.inj_xO, IH, Pos2Z.inj_succ.
    rewrite Z.pow_succ_r by lia. lia.
Qed.

(** [float64(N)] is exact below [2^53]: the mantissa is [N] shifted up to
    53 bits. *)
Lemma of_int_small (N : positive) :
  Z.pos N < 2 ^ 53 ->
  exists (A : positive) (s : Z),
    F64.of_int (Z.pos N) = S754_finite false A (- s) /\
    0 <= s <= 52 /\ Z.pos A = Z.pos N * 2 ^ s /\
    2 ^ 52 <= Z.pos A < 2 ^ 53.
Proof.
  intros HN. pose proof (digits2_pos_bounds N) as [Hl Hu].
  set (d := Z.pos (digits2_pos N)) in *.
  assert (1 <= d <= 53) as Hd.
  { split; [unfold d; lia|].
    destruct (Z.le_gt_cases d 53) as [|Hgt]; [done|].
    assert (2 ^ 53 <= 2 ^ (d - 1)) by (apply Z.pow_le_mono_r; lia). lia. }
  unfold F64.of_int, binary_normalize, binary_round, shl_align, fexp, emin,
    F64.prec, F64.emax.
  fold d.
  replace (Z.max (d + 0 - 53) (3 - 1024 - 53) - 0) with (d - 53) by lia.
  replace (Z.max (d + 0 - 53) (3 - 1024 - 53)) with (d - 53) by lia.
  assert (forall A : positive,
            Z.pos A = Z.pos N * 2 ^ (53 - d) ->
            Z.pos (digits2_pos A) = 53 /\ 2 ^ 52 <= Z.pos A < 2 ^ 53)
    as Hcanon.
  { intros A HA.
    assert (2 ^ 52 <= Z.pos A < 2 ^ 53) as HA53.
    { rewrite HA.
      assert (2 ^ 52 = 2 ^ (d - 1) * 2 ^ (53 - d)) as ->
        by (rewrite <- pow2_split by lia; f_equal; lia).
      assert (2 ^ 53 = 2 ^ d * 2 ^ (53 - d)) as ->
        by (rewrite <- pow2_split by lia; f_equal; lia).
      assert (0 < 2 ^ (53 - d)) by (apply Z.pow_pos_nonneg; lia).
      split; nia. }
    split; [|exact HA53]. apply digits2_pos_unique. simpl. lia. }
  destruct (d - 53) as [|n|n] eqn:Hn; [| lia |].
  - destruct (Hcanon N) as [HdN HN53].
    { replace (53 - d) with 0 by lia. simpl. lia. }
    exists N, 0. rewrite binary_round_aux_exact by (try done; lia).
    repeat split; lia.
  - destruct (Hcanon (Pos.iter xO N n)) as [HdA HA53].
    { rewrite pos_iter_xO. do 2 f_equal. lia. }
    exists (Pos.iter xO N n), (Z.pos n).
    rewrite binary_round_aux_exact by (try done; lia).
    repeat split; try lia. apply pos_iter_xO.
Qed.

(** The arithmetic of the index: [A] is the mantissa of [float64(N)],
    [S] its scale, [R] the rounded product in units of [U], and [V] the
    number of such units in 1. *)
Lemma p95_core (N A S X j R U V : Z) :
  0 < N -> 0 < S -> A = N * S ->
  19 * N = 20 * X + j -> 0 <= j <= 19 ->
  0 < U -> 16 <= V -> V * U = S * 2 ^ 53 ->
  2 * (R * U) <= 2 * (A * m095) + U ->
  2 * (A * m095) <= 2 * (R * U) + U ->
  A * m095 < U * 2 ^ 53 ->
  X * V <= R < (X + 1) * V.
Proof.
  unfold m095. intros HN HS -> Hdiv Hj HU HV HVU HRl HRu HP.
  assert (X * V * U = 2 ^ 53 * (X * S)) as HXVU
    by (rewrite <- Z.mul_assoc, HVU; ring).
  assert (19 * (N * S) = 20 * (X * S) + j * S) as HNS
    by (replace (19 * (N * S)) with (19 * N * S) by ring;
        rewrite Hdiv; ring).
  assert (0 <= j * S <= 19 * S) as HjS by nia.
  assert (16 * U <= V * U) as HVU16 by nia.
  assert (0 < N * S) as HA by nia.
  split.
  - destruct (Z.le_gt_cases (X * V) R) as [|Hlt]; [done|exfalso].
    assert (R * U <= X * V * U - U) by nia. lia.
  - destruct (Z.lt_ge_cases R ((X + 1) * V)) as [|Hge]; [done|exfalso].
    assert (X * V * U + V * U <= R * U) by nia. lia.
Qed.

Lemma div_between (a b q : Z) : 0 < b -> q * b <= a < (q + 1) * b -> a / b = q.
Proof. intros Hb H. symmetry. apply (Z.div_unique a b q (a - q * b)); lia. Qed.

(** [int(float64(N) * 0.95)] is the integer part of [95 * N / 100] for
    every length a slice of durations can have. *)
Lemma p95_index (N : Z) :
  0 < N < 2 ^ 48 ->
  F64.to_int (F64.mul (F64.of_int N) F64.c095) = 95 * N / 100.
Proof.
  intros [HN0 HN48]. destruct N as [|n|n]; [lia| |lia].
  destruct (of_int_small n ltac:(lia)) as (A & s & -> & Hs & HA & HA53).
  unfold F64.mul, F64.c095, SFmul, F64.prec, F64.emax. cbn [xorb].
  set (P := (A * 8556839292003942)%positive).
  assert (Z.pos P = Z.pos A * m095) as HP by (unfold P, m095; lia).
  pose proof (digits2_pos_bounds P) as [HPl HPu].
  assert (0 < 2 ^ s) as HS by (apply Z.pow_pos_nonneg; lia).
  (* the product has 105 or 106 bits *)
  assert (Z.pos (digits2_pos P) = 105 \/ Z.pos (digits2_pos P) = 106) as Hd.
  { set (d := Z.pos (digits2_pos P)) in *.
    assert (d < 107).
    { destruct (Z.lt_ge_cases d 107) as [|Hge]; [done|].
      assert (2 ^ 106 <= 2 ^ (d - 1)) by (apply Z.pow_le_mono_r; lia).
      unfold m095 in HP. nia. }
    assert (104 < d).
    { destruct (Z.lt_ge_cases 104 d) as [|Hle]; [done|].
      assert (2 ^ d <= 2 ^ 104) by (apply Z.pow_le_mono_r; lia).
      unfold m095 in HP. nia. }
    lia. }
  (* below 2^48 the scale is at least 2^5 *)
  assert (5 <= s) as Hs5.
  { destruct (Z.le_gt_cases 5 s) as [|Hlt]; [done|].
    assert (2 ^ s <= 2 ^ 4) by (apply Z.pow_le_mono_r; lia). nia. }
  destruct (binary_round_aux_pos P (- s + -53))
    as (R & m & e & -> & HRl & HRu & Hcase); [lia..|].
  set (X := 19 * Z.pos n / 20).
  assert (95 * Z.pos n / 100 = X) as ->.
  { unfold X. replace (95 * Z.pos n) with (5 * (19 * Z.pos n)) by lia.
    change 100 with (5 * 20). by rewrite Z.div_mul_cancel_l. }
  pose proof (Z.div_mod (19 * Z.pos n) 20 ltac:(lia)) as Hdiv.
  pose proof (Z.mod_pos_bound (19 * Z.pos n) 20 ltac:(lia)) as Hj.
  fold X in Hdiv.
  assert (0 <= X < 2 ^ 48) as HX by (unfold X; split;
    [apply Z.div_pos; lia | apply Z.div_lt_upper_bound; lia]).
  set (U := 2 ^ (Z.pos (digits2_pos P) - 53)) in *.
  assert (0 < U) as HU by (apply Z.pow_pos_nonneg; lia).
  assert (Z.pos P < U * 2 ^ 53) as HPU.
  { unfold U. rewrite <- pow2_split by lia.
    by replace (Z.pos (digits2_pos P) - 53 + 53)
         with (Z.pos (digits2_pos P)) by lia. }
  set (k := s + 106 - Z.pos (digits2_pos P)).
  assert (4 <= k - 1) as Hk by lia.
  assert (2 ^ k * U = 2 ^ s * 2 ^ 53) as HVU.
  { unfold U, k. rewrite <- !pow2_split by lia. f_equal. lia. }
  assert (16 <= 2 ^ k) as HV.
  { change 16 with (2 ^ 4). apply Z.pow_le_mono_r; lia. }
  rewrite HP in HRl, HRu, HPU.
  pose proof (p95_core (Z.pos n) (Z.pos A) (2 ^ s) X
                ((19 * Z.pos n) mod 20) R U (2 ^ k)
                ltac:(lia) HS HA Hdiv ltac:(lia) HU HV HVU HRl HRu HPU)
    as HXR.
  assert (2 ^ k = 2 * 2 ^ (k - 1)) as Hk2.
  { rewrite <- Z.pow_succ_r by lia. f_equal. lia. }
  assert (0 < 2 ^ (k - 1)) by (apply Z.pow_pos_nonneg; lia).
  unfold F64.to_int.
  destruct Hcase as [[-> Hm]|[-> Hm]].
  - replace (0 <=? - s + -53 + (Z.pos (digits2_pos P) - 53)) with false
      by (symmetry; apply Z.leb_gt; lia).
    replace (- (- s + -53 + (Z.pos (digits2_pos P) - 53))) with k
      by (unfold k; lia).
    rewrite (div_between (Z.pos m) (2 ^ k) X) by lia.
    unfold GoInt.MinInt64, GoInt.MaxInt64.
    destruct (Z.leb_spec (- 2 ^ 63) X), (Z.leb_spec X (2 ^ 63 - 1));
      simpl; lia.
  - replace (0 <=? - s + -53 + (Z.pos (digits2_pos P) - 53) + 1) with false
      by (symmetry; apply Z.leb_gt; lia).
    replace (- (- s + -53 + (Z.pos (digits2_pos P) - 53) + 1)) with (k - 1)
      by (unfold k; lia).
    rewrite (div_between (Z.pos m) (2 ^ (k - 1)) X) by lia.
    unfold GoInt.MinInt64, GoInt.MaxInt64.
    destruct (Z.leb_spec (- 2 ^ 63) X), (Z.leb_spec X (2 ^ 63 - 1));
      simpl; lia.
Qed.

(** Far beyond any slice the rounding of the product shows: the bound on
    the length is needed. *)
Lemma p95_index_beyond_slices :
  F64.to_int (F64.mul (F64.of_int 1431702268667461) F64.c095)
    = 95 * 1431702268667461 / 100 + 1.
Proof. vm_compute. reflexivity. Qed.

End FloatFacts.

(** ** The aggregator: derived statistics *)

Section StatFacts.

Import GoInt.

(** The constant 0.95 is the binary64 nearest to 95/100. *)
Lemma c095_nearest : F64.div (F64.of_int 95) (F64.of_int 100) = F64.c095.
Proof. vm_compute. reflexivity. Qed.

(** On integers every correct sort gives the same slice. *)
Lemma sort_Slice_unique (l sorted : list Z) :
  Sorted Z.le sorted -> Permutation sorted l -> sort_Slice l = sorted.
Proof.
  intros Hs Hp. unfold sort_Slice. apply (Sorted_unique Z.le).
  - apply Sorted_merge_sort, _.
  - exact Hs.
  - by rewrite merge_sort_Permutation, Hp.
Qed.

Lemma index_in_range {A} (l : list A) (i : Z) :
  0 <= i < len l -> index l i = l !! Z.to_nat i /\ is_Some (index l i).
Proof.
  intros Hi. unfold index. destruct (Z.ltb_spec i 0); [lia|].
  split; [done|]. apply lookup_lt_is_Some. unfold len in Hi. lia.
Qed.

(** The percentile, computed: the element of the sorted slice at the
    integer part of 95 N / 100, which is inside the slice. *)
Lemma P95Latency_eq (m : Metrics) :
  0 < len (Latencies m) < maxLatencies ->
  P95Latency m =
    sort_Slice (Latencies m) !! Z.to_nat (95 * len (Latencies m) / 100) /\
  is_Some (P95Latency m).
Proof.
  intros [HN Hmax]. unfold P95Latency.
  assert (len (sort_Slice (Latencies m)) = len (Latencies m)) as ->.
  { unfold len, sort_Slice. f_equal.
    apply Permutation_length, merge_sort_Permutation. }
  set (N := len (Latencies m)) in *.
  destruct (Z.eqb_spec N 0) as [|_]; [lia|].
  rewrite p95_index by (unfold maxLatencies in Hmax; lia).
  assert (0 <= 95 * N / 100 < N) as Hidx.
  { split; [apply Z.div_pos; lia|apply Z.div_lt_upper_bound; lia]. }
  destruct (Z.geb_spec (95 * N / 100) N); [lia|].
  apply index_in_range.
  replace (len (sort_Slice (Latencies m))) with N; [lia|].
  unfold N, len, sort_Slice. f_equal. symmetry.
  apply Permutation_length, merge_sort_Permutation.
Qed.

(** C4: for a non-empty sample sequence of length N (below the slice
    bound), [P95Latency] returns the element at index
    min(N-1, floor(0.95*N)) of the sequence sorted ascending, whichever
    way it was sorted, with no interpolation; for the empty sequence it
    returns 0. *)
Theorem P95Latency_sorted_index (m : Metrics) (sorted : list Z) :
  len (Latencies m) < maxLatencies ->
  Sorted Z.le sorted -> Permutation sorted (Latencies m) ->
  let N := len (Latencies m) in
  (N = 0 -> P95Latency m = Some 0) /\
  (0 < N ->
   P95Latency m = sorted !! Z.to_nat (Z.min (N - 1) (95 * N / 100)) /\
   is_Some (P95Latency m)).
Proof.
  intros Hmax Hs Hp N. split.
  - unfold P95Latency. fold N. intros ->. reflexivity.
  - intros HN. destruct (P95Latency_eq m ltac:(fold N; lia)) as [Heq Hsome].
    split; [|exact Hsome]. rewrite Heq. fold N.
    rewrite (sort_Slice_unique _ sorted Hs Hp).
    assert (95 * N / 100 < N) by (apply Z.div_lt_upper_bound; lia).
    by rewrite Z.min_r by lia.
Qed.

Lemma P95Latency_sorted_index_witness :
  let m := mkMetrics 4 4 0 None 18 1 9 [5; 3; 9; 1] in
  P95Latency m = Some 9 /\ is_Some (P95Latency m).
Proof.
  assert (Permutation [1; 3; 5; 9] [5; 3; 9; 1]) as Hp.
  { change [1; 3; 5; 9] with ([1; 3] ++ [5; 9]).
    change [5; 3; 9; 1] with ([5] ++ [3; 9; 1]).
    etrans; [apply Permutation_app_comm|]. simpl. constructor.
    change [9; 1; 3] with ([9] ++ [1; 3]).
    etrans; [apply Permutation_app_comm|]. simpl.
    etrans; [apply perm_swap|]. constructor. apply perm_swap. }
  apply (P95Latency_sorted_index
           (mkMetrics 4 4 0 None 18 1 9 [5; 3; 9; 1]) [1; 3; 5; 9]).
  - reflexivity.
  - repeat constructor; lia.
  - exact Hp.
  - reflexivity.
Defined.

Lemma sum_ok_latencies_snoc rs r :
  sum_ok_latencies (rs ++ [r]) =
  sum_ok_latencies rs + match Error r with
                        | None => Latency r
                        | Some _ => 0
                        end.
Proof. induction rs as [|r' rs IH]; simpl; [|rewrite IH]; lia. Qed.

Lemma AddAll_totals rs :
  let m := AddAll rs zeroMetrics in
  Requests m = wrap (len rs) /\
  TotalLatency m = wrap (sum_ok_latencies rs).
Proof.
  induction rs as [|r rs [IHr IHt]] using rev_ind; [by split|].
  cbv zeta. rewrite AddAll_snoc, Add_Requests, IHr, len_app, wrap_add_l.
  split; [reflexivity|].
  rewrite sum_ok_latencies_snoc. unfold Add.
  destruct (Error r); [|destruct (_ && _)]; simpl; rewrite IHt;
    unfold add; rewrite ?wrap_add_l, ?Z.add_0_r; reflexivity.
Qed.

(** C5, as the code has it: throughput is the request count over the
    sum, in seconds, of the latencies of the outcomes without an error;
    an errored outcome adds to the count and nothing to the sum.  It is
    zero with no request and also when that sum is zero.  Count and sum
    are Go integers. *)
Theorem Throughput_over_error_free_latencies (rs : list Result) :
  let count := wrap (len rs) in
  let total := wrap (sum_ok_latencies rs) in
  Throughput (AddAll rs zeroMetrics) =
    if (count =? 0) || (total =? 0) then F64.zero
    else F64.div (F64.of_int count) (Seconds total).
Proof.
  cbv zeta. unfold Throughput.
  by destruct (AddAll_totals rs) as [-> ->].
Qed.

(** C5, as the specification states it, fails: one timed-out request and
    one answered request of one second each give a throughput of 2 per
    second, where the quotient over both latencies is 1. *)
Lemma Throughput_leaves_out_errored_latencies :
  let rs := [mkResult Second 0 (Some "timeout"%string);
             mkResult Second 200 None] in
  Throughput (AddAll rs zeroMetrics) = F64.of_int 2 /\
  Throughput_over_all_latencies rs = F64.of_int 1 /\
  Throughput (AddAll rs zeroMetrics) <> Throughput_over_all_latencies rs.
Proof. vm_compute. repeat split; discriminate. Qed.

(** C8: no derived statistic panics: the mean divides by a count it has
    tested, the percentile indexes inside the sorted slice, and success
    rate and throughput are float64 computations, which have no failing
    case.  An aggregate with zero requests reports zero for the mean, the
    success rate and the throughput, and for the percentile too when it
    was built by [Add]. *)
Theorem derived_statistics_total (m : Metrics) (rs : list Result) :
  len (Latencies m) < maxLatencies -> len rs <= MaxInt64 ->
  is_Some (MeanLatency m) /\ is_Some (P95Latency m) /\
  (Requests m = 0 ->
   MeanLatency m = Some 0 /\ SuccessRate m = F64.zero /\
   Throughput m = F64.zero) /\
  (Requests (AddAll rs zeroMetrics) = 0 ->
   MeanLatency (AddAll rs zeroMetrics) = Some 0 /\
   SuccessRate (AddAll rs zeroMetrics) = F64.zero /\
   P95Latency (AddAll rs zeroMetrics) = Some 0 /\
   Throughput (AddAll rs zeroMetrics) = F64.zero).
Proof.
  intros Hmax Hrs. repeat split.
  - unfold MeanLatency, div.
    destruct (Z.eqb_spec (Requests m) 0); simpl; [done|].
    by destruct (TotalLatency m =? 0).
  - destruct (Z.eq_dec (len (Latencies m)) 0) as [Hz|Hnz].
    + unfold P95Latency. by rewrite Hz.
    + pose proof (len_nonneg (Latencies m)).
      apply P95Latency_eq. lia.
  - unfold MeanLatency. by rewrite H.
  - unfold SuccessRate. by rewrite H.
  - unfold Throughput. by rewrite H.
  - pose proof (AddAll_counts_exact rs Hrs) as (_ & _ & Hr & _).
    cbv zeta in Hr. rewrite Hr in H.
    destruct rs; [reflexivity|discriminate].
  - unfold SuccessRate. by rewrite H.
  - pose proof (AddAll_counts_exact rs Hrs) as (_ & _ & Hr & _).
    cbv zeta in Hr. rewrite Hr in H.
    destruct rs; [reflexivity|discriminate].
  - unfold Throughput. by rewrite H.
Qed.

Lemma derived_statistics_total_witness :
  let m := AddAll [mkResult 7 200 None; mkResult 3 500 None;
                   mkResult 9 0 (Some "refused"%string)] zeroMetrics in
  is_Some (MeanLatency m) /\ is_Some (P95Latency m) /\
  (Requests m = 0 ->
   MeanLatency m = Some 0 /\ SuccessRate m = F64.zero /\
   Throughput m = F64.zero) /\
  (Requests (AddAll [] zeroMetrics) = 0 ->
   MeanLatency (AddAll [] zeroMetrics) = Some 0 /\
   SuccessRate (AddAll [] zeroMetrics) = F64.zero /\
   P95Latency (AddAll [] zeroMetrics) = Some 0 /\
   Throughput (AddAll [] zeroMetrics) = F64.zero).
Proof.
  apply (derived_statistics_total
           (AddAll [mkResult 7 200 None; mkResult 3 500 None;
                    mkResult 9 0 (Some "refused"%string)] zeroMetrics) []).
  - reflexivity.
  - vm_compute. discriminate.
Defined.

(** The statistics on a small run: two answered requests, one refused
    connection and one server error. *)
Example statistics_of_a_small_run :
  let m := AddAll [mkResult (120 * 1000000) 200 None;
                   mkResult (30 * 1000000) 0 (Some "refused"%string);
                   mkResult (80 * 1000000) 302 None;
                   mkResult (200 * 1000000) 503 None] zeroMetrics in
  (Requests m, Success m, Failures m) = (4, 2, 2) /\
  histogram m = {[200 := 1; 302 := 1; 503 := 1]} /\
  (TotalLatency m, MinLatency m, MaxLatency m)
    = (400 * 1000000, 80 * 1000000, 200 * 1000000) /\
  MeanLatency m = Some (100 * 1000000) /\
  SuccessRate m = F64.of_int 50 /\
  P95Latency m = Some (200 * 1000000) /\
  Throughput m = F64.of_int 10.
Proof. vm_compute. repeat split. Qed.

(** Twenty samples: the index is 19, the last one; a hundred: index 95. *)
Example P95Latency_of_twenty_and_of_a_hundred :
  P95Latency (mkMetrics 20 20 0 None 210 1 20
                (rev (map Z.of_nat (seq 1 20)))) = Some 20 /\
  P95Latency (mkMetrics 100 100 0 None 5050 1 100
                (map Z.of_nat (seq 1 100))) = Some 96.
Proof. vm_compute. split; reflexivity. Qed.

End StatFacts.

(** ** The aggregate over a whole run *)

Section RunFacts.

Import GoInt Outcomes.

Lemma Add_Latencies r m :
  Latencies (Add r m) = Latencies m ++ (if is_ok r then [Latency r] else []).
Proof.
  unfold Add, is_ok. destruct (Error r); [|destruct (_ && _)]; simpl;
    by rewrite ?app_nil_r.
Qed.

Lemma AddAll_Latencies rs m :
  Latencies (AddAll rs m) = Latencies m ++ ok_latencies rs.
Proof.
  revert m. induction rs as [|r rs IH]; intros m; simpl.
  - by rewrite app_nil_r.
  - rewrite IH, Add_Latencies. unfold ok_latencies. simpl.
    destruct (is_ok r); simpl; by rewrite <- ?app_assoc, ?app_nil_r.
Qed.

(** X1: the sample sequence of an aggregate holds the latencies of the
    error-free outcomes and no other, in the order they arrived; an
    errored outcome leaves no sample. *)
Theorem Latencies_are_the_error_free_latencies (rs : list Result) :
  let m := AddAll rs zeroMetrics in
  Latencies m = ok_latencies rs /\
  len (Latencies m) = len (List.filter is_ok rs) /\
  len (Latencies m) <= len rs.
Proof.
  cbv zeta. rewrite AddAll_Latencies. simpl. unfold ok_latencies, len.
  rewrite length_map. repeat split.
  pose proof (List.filter_length_le is_ok rs). lia.
Qed.

Lemma wrap_0 : wrap 0 = 0.
Proof. reflexivity. Qed.

Lemma count_code_snoc code rs r :
  count_code code (rs ++ [r]) =
  count_code code rs
  + (if is_ok r && (StatusCode r =? code) then 1 else 0).
Proof.
  unfold count_code, len. rewrite List.filter_app, length_app. simpl.
  destruct (is_ok r && _); simpl; lia.
Qed.

Lemma count_code_nonneg code rs : 0 <= count_code code rs.
Proof. unfold count_code. apply len_nonneg. Qed.

Lemma histogram_Add r m code :
  histogram (Add r m) !! code =
  if is_ok r && (StatusCode r =? code)
  then Some (incr (default 0 (histogram m !! code)))
  else histogram m !! code.
Proof.
  unfold Add, histogram, is_ok, map_incr.
  destruct (Error r); simpl.
  { by destruct (StatusCodes m). }
  destruct (Z.eqb_spec (StatusCode r) code) as [->|Hne];
    destruct (_ && _); simpl; destruct (StatusCodes m); simpl;
    by rewrite ?lookup_insert_eq, ?lookup_insert_ne.
Qed.

(** X2: after any run, the histogram has an entry for a status code
    exactly when some error-free outcome carried that code, and the entry
    is the number of such outcomes (as a Go [int]); errored outcomes and
    codes never seen have no entry. *)
Theorem histogram_counts_observed_codes (rs : list Result) (code : Z) :
  histogram (AddAll rs zeroMetrics) !! code =
    if count_code code rs =? 0 then None
    else Some (wrap (count_code code rs)).
Proof.
  induction rs as [|r rs IH] using rev_ind; [reflexivity|].
  rewrite AddAll_snoc, histogram_Add, count_code_snoc, IH.
  pose proof (count_code_nonneg code rs) as Hn.
  destruct (is_ok r && _).
  - destruct (Z.eqb_spec (count_code code rs + 1) 0); [lia|].
    f_equal. unfold incr, add.
    destruct (Z.eqb_spec (count_code code rs) 0) as [->|_]; simpl.
    + reflexivity.
    + by rewrite wrap_add_l.
  - by rewrite Z.add_0_r.
Qed.

Lemma ltb_min (l a : Z) : (if l <? a then l else a) = Z.min l a.
Proof. destruct (Z.ltb_spec l a); lia. Qed.

Lemma gtb_max (l a : Z) : (if l >? a then l else a) = Z.max l a.
Proof. rewrite Z.gtb_ltb. destruct (Z.ltb_spec a l); lia. Qed.

(** The fields [Add] leaves for an error-free outcome. *)
Lemma Add_ok_extremes r m :
  is_ok r = true ->
  StatusCodes (Add r m) <> None /\
  MinLatency (Add r m) = Z.min (Latency r) (effective_min m) /\
  MaxLatency (Add r m) = Z.max (Latency r) (MaxLatency m).
Proof.
  unfold is_ok, Add, effective_min. destruct (Error r); [done|]. intros _.
  rewrite !ltb_min, !gtb_max.
  destruct (_ && _); simpl; by destruct (StatusCodes m).
Qed.

Lemma Add_error_extremes r m :
  is_ok r = false ->
  StatusCodes (Add r m) <> None /\
  MinLatency (Add r m) = effective_min m /\
  MaxLatency (Add r m) = MaxLatency m.
Proof.
  unfold is_ok, Add, effective_min. destruct (Error r); [|done]. intros _.
  simpl. by destruct (StatusCodes m).
Qed.

Lemma effective_min_made m :
  StatusCodes m <> None -> effective_min m = MinLatency m.
Proof. unfold effective_min. by destruct (StatusCodes m). Qed.

Lemma Add_extremes_inv r m : extremes_inv m -> extremes_inv (Add r m).
Proof.
  intros (Hall & Hmin & Hmax & Hminin & Hmaxin). unfold extremes_inv.
  rewrite Add_Latencies.
  destruct (is_ok r) eqn:Hok.
  - destruct (Add_ok_extremes r m Hok) as (Hsc & Hmin' & Hmax').
    rewrite (effective_min_made _ Hsc), Hmin', Hmax'.
    repeat split; try lia.
    + apply Forall_app. split.
      * eapply Forall_impl; [exact Hall|]. simpl. lia.
      * repeat constructor; lia.
    + destruct (Z.min_spec (Latency r) (effective_min m)) as [[_ ->]|[_ ->]].
      * right. apply in_or_app. right. by left.
      * destruct Hminin as [|Hin]; [by left|].
        right. apply in_or_app. by left.
    + destruct (Z.max_spec (Latency r) (MaxLatency m)) as [[_ ->]|[_ ->]].
      * destruct Hmaxin as [|Hin]; [by left|].
        right. apply in_or_app. by left.
      * right. apply in_or_app. right. by left.
  - destruct (Add_error_extremes r m Hok) as (Hsc & Hmin' & Hmax').
    rewrite (effective_min_made _ Hsc), Hmin', Hmax', app_nil_r.
    by repeat split.
Qed.

Lemma AddAll_extremes_inv rs m :
  extremes_inv m -> extremes_inv (AddAll rs m).
Proof.
  revert m. induction rs as [|r rs IH]; intros m Hm; [done|].
  simpl. by apply IH, Add_extremes_inv.
Qed.

Lemma zeroMetrics_extremes_inv : extremes_inv zeroMetrics.
Proof.
  unfold extremes_inv, effective_min, Hour, Second. simpl.
  repeat split; try lia; [constructor|by left..].
Qed.

Lemma AddAll_StatusCodes_made r rs m :
  StatusCodes (AddAll (r :: rs) m) <> None.
Proof.
  simpl. assert (StatusCodes (Add r m) <> None) as H.
  { destruct (is_ok r) eqn:Hok;
      [apply Add_ok_extremes|apply Add_error_extremes]; done. }
  revert H. generalize (Add r m). clear.
  induction rs as [|r' rs IH]; intros m Hm; [done|].
  simpl. apply IH.
  destruct (is_ok r') eqn:Hok;
    [apply Add_ok_extremes|apply Add_error_extremes]; done.
Qed.

Lemma extremes_bracket_the_samples_aux (r : Result) (rs : list Result) :
  let m := AddAll (r :: rs) zeroMetrics in
  Forall (fun l => l <= MaxLatency m) (Latencies m) /\ 0 <= MaxLatency m.
Proof.
  cbv zeta.
  destruct (AddAll_extremes_inv (r :: rs) _ zeroMetrics_extremes_inv)
    as (Hall & _ & Hmax & _).
  split; [|exact Hmax]. eapply Forall_impl; [exact Hall|]. simpl. lia.
Qed.

(** X3: after at least one [Add], the minimum and the maximum bracket
    every recorded sample; the minimum is a recorded sample or still the
    24-hour sentinel (when no sample was below it), and the maximum is a
    recorded sample or still 0 (when no sample was above it). *)
Theorem extremes_bracket_the_samples (r : Result) (rs : list Result) :
  let m := AddAll (r :: rs) zeroMetrics in
  Forall (fun l => MinLatency m <= l <= MaxLatency m) (Latencies m) /\
  MinLatency m <= 24 * Hour /\ 0 <= MaxLatency m /\
  (MinLatency m = 24 * Hour \/ In (MinLatency m) (Latencies m)) /\
  (MaxLatency m = 0 \/ In (MaxLatency m) (Latencies m)).
Proof.
  cbv zeta.
  pose proof (AddAll_extremes_inv (r :: rs) _ zeroMetrics_extremes_inv)
    as Hinv.
  unfold extremes_inv in Hinv.
  by rewrite (effective_min_made _ (AddAll_StatusCodes_made r rs _)) in Hinv.
Qed.

Lemma map_incr_comm (k1 k2 : Z) (h : gmap Z Z) :
  map_incr k1 (map_incr k2 h) = map_incr k2 (map_incr k1 h).
Proof.
  unfold map_incr. destruct (Z.eq_dec k1 k2) as [->|Hne]; [done|].
  rewrite !lookup_insert_ne by done. by apply insert_insert_ne.
Qed.

Lemma same_aggregate_refl m : same_aggregate m m.
Proof. by repeat split. Qed.

Lemma same_aggregate_trans m1 m2 m3 :
  same_aggregate m1 m2 -> same_aggregate m2 m3 -> same_aggregate m1 m3.
Proof.
  intros (?&?&?&?&?&?&?&?) (?&?&?&?&?&?&?&?).
  repeat split; try congruence. by etrans.
Qed.

Lemma Add_same_aggregate r m m' :
  same_aggregate m m' -> same_aggregate (Add r m) (Add r m').
Proof.
  intros (Hr & Hs & Hf & Hsc & Ht & Hmin & Hmax & Hl).
  unfold same_aggregate, Add. rewrite Hr, Hs, Hf, Hsc, Ht, Hmin, Hmax.
  destruct (Error r); [|destruct (_ && _)]; simpl;
    repeat split; try done; by apply Permutation_app_tail.
Qed.

Lemma AddAll_same_aggregate rs m m' :
  same_aggregate m m' -> same_aggregate (AddAll rs m) (AddAll rs m').
Proof.
  revert m m'. induction rs as [|r rs IH]; intros m m' H; [done|].
  simpl. by apply IH, Add_same_aggregate.
Qed.

(** Two consecutive [Add]s give the same aggregate in either order. *)
Lemma Add_swap r1 r2 m :
  same_aggregate (Add r1 (Add r2 m)) (Add r2 (Add r1 m)).
Proof.
  unfold same_aggregate.
  rewrite !Add_Requests.
  assert (forall a b c, add (add a b) c = add (add a c) b) as Hadd.
  { intros. unfold add. rewrite !wrap_add_l. f_equal. lia. }
  assert (Permutation (Latencies (Add r1 (Add r2 m)))
                      (Latencies (Add r2 (Add r1 m)))) as Hperm.
  { rewrite !Add_Latencies, <- !app_assoc.
    apply Permutation_app_head, Permutation_app_comm. }
  revert Hperm.
  generalize (Latencies (Add r1 (Add r2 m))) (Latencies (Add r2 (Add r1 m))).
  intros l1 l2 Hperm. split; [done|].
  unfold Add.
  destruct (Error r1), (Error r2), (StatusCodes m);
    repeat match goal with
           | |- context [(?a >=? 200) && (?a <? 400)] =>
               destruct ((a >=? 200) && (a <? 400))
           end; cbn [Requests Success Failures StatusCodes TotalLatency
                     MinLatency MaxLatency Latencies];
    rewrite ?ltb_min, ?gtb_max;
    repeat split; try done; try (by rewrite map_incr_comm);
    try apply Hadd; try lia.
Qed.

Lemma AddAll_Permutation rs rs' m :
  Permutation rs rs' -> same_aggregate (AddAll rs m) (AddAll rs' m).
Proof.
  intros Hp. revert m.
  induction Hp as [|x l l' _ IH|x y l|l l' l'' _ IH1 _ IH2]; intros m.
  - apply same_aggregate_refl.
  - simpl. apply IH.
  - simpl. apply AddAll_same_aggregate, Add_swap.
  - eapply same_aggregate_trans; [apply IH1|apply IH2].
Qed.

Lemma sort_Slice_Permutation (l l' : list Z) :
  Permutation l l' -> sort_Slice l = sort_Slice l'.
Proof.
  intros Hp. apply sort_Slice_unique.
  - apply Sorted_merge_sort, _.
  - unfold sort_Slice. by rewrite merge_sort_Permutation.
Qed.

Lemma P95Latency_Permutation m m' :
  Permutation (Latencies m) (Latencies m') -> P95Latency m = P95Latency m'.
Proof.
  intros Hp. unfold P95Latency.
  rewrite (sort_Slice_Permutation _ _ Hp).
  by replace (len (Latencies m)) with (len (Latencies m'))
    by (unfold len; f_equal; symmetry; by apply Permutation_length).
Qed.

(** X4: the order in which the outcomes of a run arrive does not matter:
    two arrival orders of the same outcomes give the same counters,
    histogram, latency sum, minimum and maximum, the same samples up to
    their order, and the same mean, success rate, 95th percentile and
    throughput. *)
Theorem statistics_ignore_arrival_order (rs rs' : list Result) :
  Permutation rs rs' ->
  let m := AddAll rs zeroMetrics in
  let m' := AddAll rs' zeroMetrics in
  same_aggregate m m' /\
  MeanLatency m = MeanLatency m' /\ SuccessRate m = SuccessRate m' /\
  P95Latency m = P95Latency m' /\ Throughput m = Throughput m'.
Proof.
  intros Hp m m'.
  pose proof (AddAll_Permutation rs rs' zeroMetrics Hp) as Hsame.
  fold m m' in Hsame. split; [exact Hsame|].
  destruct Hsame as (Hr & Hs & Hf & Hsc & Ht & Hmin & Hmax & Hl).
  unfold MeanLatency, SuccessRate, Throughput. rewrite Hr, Hs, Ht.
  repeat split. by apply P95Latency_Permutation.
Qed.

Lemma statistics_ignore_arrival_order_witness :
  let a := mkResult 7 200 None in
  let b := mkResult 3 0 (Some "refused"%string) in
  let c := mkResult 9 404 None in
  same_aggregate (AddAll [a; b; c] zeroMetrics)
                 (AddAll [c; a; b] zeroMetrics) /\
  MeanLatency (AddAll [a; b; c] zeroMetrics)
    = MeanLatency (AddAll [c; a; b] zeroMetrics) /\
  SuccessRate (AddAll [a; b; c] zeroMetrics)
    = SuccessRate (AddAll [c; a; b] zeroMetrics) /\
  P95Latency (AddAll [a; b; c] zeroMetrics)
    = P95Latency (AddAll [c; a; b] zeroMetrics) /\
  Throughput (AddAll [a; b; c] zeroMetrics)
    = Throughput (AddAll [c; a; b] zeroMetrics).
Proof.
  intros a b c.
  apply (statistics_ignore_arrival_order [a; b; c] [c; a; b]).
  change [c; a; b] with ([c] ++ [a; b]).
  change [a; b; c] with ([a; b] ++ [c]).
  apply Permutation_app_comm.
Defined.

Lemma sum_ok_latencies_bound (M : Z) (rs : list Result) :
  0 <= M -> Forall (fun l => 0 <= l <= M) (ok_latencies rs) ->
  0 <= sum_ok_latencies rs <= len rs * M.
Proof.
  intros HM. unfold ok_latencies, len.
  induction rs as [|r rs IH]; simpl; [lia|]. unfold is_ok at 1.
  destruct (Error r); simpl; intros H.
  - specialize (IH H). nia.
  - apply Forall_cons in H as [Hr H]. specialize (IH H). nia.
Qed.

(** X5: without overflow and with non-negative latencies, the mean is the
    sum of the latencies of the error-free outcomes divided (discarding
    the fraction) by the number of all requests, errored ones included, so
    it lies between 0 and the maximum latency. *)
Theorem MeanLatency_over_all_requests (rs : list Result) :
  0 < len rs <= MaxInt64 ->
  Forall (fun l => 0 <= l) (ok_latencies rs) ->
  sum_ok_latencies rs <= MaxInt64 ->
  let m := AddAll rs zeroMetrics in
  MeanLatency m = Some (sum_ok_latencies rs / len rs) /\
  0 <= sum_ok_latencies rs / len rs <= MaxLatency m.
Proof.
  intros Hlen Hpos Hsum m.
  destruct (AddAll_totals rs) as [Hreq Htot]. fold m in Hreq, Htot.
  destruct rs as [|r rs]; [unfold len in Hlen; simpl in Hlen; lia|].
  pose proof (extremes_bracket_the_samples_aux r rs) as (Hall & Hmax).
  fold m in Hall, Hmax.
  assert (Latencies m = ok_latencies (r :: rs)) as HL
    by (unfold m; by rewrite AddAll_Latencies).
  rewrite HL in Hall.
  assert (Forall (fun l => 0 <= l <= MaxLatency m) (ok_latencies (r :: rs)))
    as Hall'.
  { apply Forall_forall. intros l Hl. rewrite Forall_forall in Hall, Hpos.
    split; [by apply Hpos|by apply Hall]. }
  pose proof (sum_ok_latencies_bound _ _ Hmax Hall') as [Hs0 HsM].
  unfold MaxInt64 in *.
  rewrite wrap_small in Hreq, Htot
    by (unfold in_range, MinInt64, MaxInt64; lia).
  assert (0 <= sum_ok_latencies (r :: rs) / len (r :: rs)
            <= MaxLatency m) as Hmean.
  { split; [apply Z.div_pos; lia|].
    apply Z.div_le_upper_bound; lia. }
  split; [|exact Hmean].
  unfold MeanLatency, div. rewrite Hreq, Htot.
  destruct (Z.eqb_spec (len (r :: rs)) 0); [lia|]. cbn [orb].
  destruct (Z.eqb_spec (sum_ok_latencies (r :: rs)) 0) as [->|Hnz].
  - by rewrite Z.div_0_l by lia.
  - rewrite Z.quot_div_nonneg by lia. f_equal. apply wrap_small.
    unfold in_range, MinInt64, MaxInt64.
    assert (sum_ok_latencies (r :: rs) / len (r :: rs)
              <= sum_ok_latencies (r :: rs))
      by (apply Z.div_le_upper_bound; nia).
    lia.
Qed.

Lemma MeanLatency_over_all_requests_witness :
  let rs := [mkResult 120 200 None; mkResult 30 0 (Some "refused"%string);
             mkResult 80 500 None] in
  MeanLatency (AddAll rs zeroMetrics) = Some 66 /\
  0 <= 66 <= MaxLatency (AddAll rs zeroMetrics).
Proof.
  intros rs. apply (MeanLatency_over_all_requests rs).
  - vm_compute. split; [reflexivity|discriminate].
  - repeat constructor; vm_compute; discriminate.
  - vm_compute. discriminate.
Defined.

Lemma filter_length_Permutation {A} (f : A -> bool) (l l' : list A) :
  Permutation l l' ->
  length (List.filter f l) = length (List.filter f l').
Proof.
  induction 1 as [|x l l' _ IH|x y l|l l' l'' _ IH1 _ IH2]; simpl.
  - reflexivity.
  - destruct (f x); simpl; by rewrite IH.
  - by destruct (f x), (f y).
  - by rewrite IH1.
Qed.

(** In an ascending list the element at position [i] has at least [i+1]
    elements at most as large, and at most [i] elements below it. *)
Lemma sorted_rank (s : list Z) (i : nat) (p : Z) :
  StronglySorted Z.le s -> s !! i = Some p ->
  (i + 1 <= length (List.filter (fun x => (x <=? p)%Z) s))%nat /\
  (length (List.filter (fun x => (x <? p)%Z) s) <= i)%nat.
Proof.
  intros Hs. revert i. induction Hs as [|x s Hs IH Hx]; intros i Hi.
  - done.
  - destruct i as [|i]; simpl in Hi.
    + injection Hi as ->. simpl.
      rewrite Z.leb_refl, Z.ltb_irrefl. simpl. split; [lia|].
      assert (List.filter (fun x => x <? p) s = []) as ->; [|simpl; lia].
      clear -Hx. induction Hx as [|y s Hy _ IH]; simpl; [done|].
      destruct (Z.ltb_spec y p); [lia|done].
    + destruct (IH i Hi) as [Hle Hlt].
      assert (x <= p) as Hxp.
      { rewrite Forall_forall in Hx. apply Hx.
        by eapply list_elem_of_lookup_2. }
      simpl. destruct (Z.leb_spec x p); [|lia].
      destruct (x <? p); simpl; lia.
Qed.

(** X6: for a sample sequence of length N (non-empty, below the slice
    bound) the percentile returned is one of the samples, more than 95% of
    the samples are at most as large, and at most 95% are below it. *)
Theorem P95Latency_rank (m : Metrics) :
  0 < len (Latencies m) < maxLatencies ->
  exists p : Z,
    P95Latency m = Some p /\ In p (Latencies m) /\
    95 * len (Latencies m) < 100 * count_le p (Latencies m) /\
    100 * count_lt p (Latencies m) <= 95 * len (Latencies m).
Proof.
  intros HN. destruct (P95Latency_eq m HN) as [Heq [p Hp]].
  exists p. split; [exact Hp|]. rewrite Hp in Heq. symmetry in Heq.
  assert (Permutation (sort_Slice (Latencies m)) (Latencies m)) as Hperm
    by apply merge_sort_Permutation.
  assert (StronglySorted Z.le (sort_Slice (Latencies m))) as Hsorted
    by (apply StronglySorted_merge_sort; apply _).
  split.
  { eapply Permutation_in; [exact Hperm|].
    apply list_elem_of_In. by eapply list_elem_of_lookup_2. }
  destruct (sorted_rank _ _ _ Hsorted Heq) as [Hle Hlt].
  unfold count_le, count_lt, len in *.
  rewrite <- (filter_length_Permutation _ _ _ Hperm).
  rewrite <- (filter_length_Permutation (fun x => x <? p) _ _ Hperm).
  set (N := Z.of_nat (length (Latencies m))) in *.
  assert (0 <= 95 * N / 100) by (apply Z.div_pos; lia).
  pose proof (Z.mul_div_le (95 * N) 100 ltac:(lia)).
  pose proof (Z.mul_succ_div_gt (95 * N) 100 ltac:(lia)).
  lia.
Qed.

Lemma P95Latency_rank_witness :
  exists p : Z,
    P95Latency (mkMetrics 4 4 0 None 18 1 9 [5; 3; 9; 1]) = Some p /\
    In p [5; 3; 9; 1] /\
    95 * 4 < 100 * count_le p [5; 3; 9; 1] /\
    100 * count_lt p [5; 3; 9; 1] <= 95 * 4.
Proof.
  apply (P95Latency_rank (mkMetrics 4 4 0 None 18 1 9 [5; 3; 9; 1])).
  split; reflexivity.
Defined.

End RunFacts.

(** ** Executions of the guard *)

Section GuardRunFacts.

Import Guard GuardRuns.

Lemma run_app evs1 evs2 w :
  run (evs1 ++ evs2) w =
  match run evs1 w with
  | Some w' => run evs2 w'
  | None => None
  end.
Proof.
  revert w. induction evs1 as [|e evs1 IH]; intros w; simpl; [done|].
  destruct (step e w); [apply IH|done].
Qed.

Lemma init_good n : good (init n).
Proof. split; [apply init_guard_inv|simpl; lia]. Qed.

(** What one step does to the outcomes on their way and to the warning
    count. *)
Lemma step_effect e w :
  good w ->
  exists w' d k,
    step e w = Some w' /\ good w' /\
    cap (resultsChan w') = cap (resultsChan w) /\
    resultChanClosed w' = resultChanClosed w || is_Close e /\
    ctxDone w' = ctxDone w || is_Cancel e /\
    delivered w' = delivered w ++ d /\
    warnings w' = (warnings w + k)%nat /\
    match e with
    | Send _ _ r =>
        if resultChanClosed w then d = [] /\ k = 0%nat
        else (d = [r] /\ k = 0%nat)
             \/ (d = [] /\ k = 1%nat /\ ctxDone w = false)
             \/ (d = [] /\ k = 0%nat /\ ctxDone w = true)
    | _ => d = [] /\ k = 0%nat
    end.
Proof.
  intros Hgood. pose proof Hgood as [[Hc Hn] Hb].
  assert (exists w' d k,
            Some w = Some w' /\ good w' /\
            cap (resultsChan w') = cap (resultsChan w) /\
            resultChanClosed w' = resultChanClosed w /\
            ctxDone w' = ctxDone w /\
            delivered w' = delivered w ++ d /\
            warnings w' = (warnings w + k)%nat /\ d = [] /\ k = 0%nat)
    as Hsame.
  { exists w, [], 0%nat. by rewrite app_nil_r, Nat.add_0_r. }
  destruct e as [pick parked r| | |]; simpl.
  - unfold safeSend.
    destruct (resultChanClosed w) eqn:Hflag; simpl.
    { destruct Hsame as (w' & d & k & ? & ? & ? & ? & ? & ? & ? & ? & ?).
      exists w', d, k. by rewrite ?orb_false_r. }
    unfold send_ready. rewrite ?Hc, ?Hflag. cbn [orb].
    destruct (ctxDone w) eqn:Hdone;
      destruct (parked && bool_decide (buf (resultsChan w) = [])) eqn:Hpark;
      cbn [orb app];
      try destruct (bool_decide (length (buf (resultsChan w))
                                 < cap (resultsChan w))%nat) eqn:Hroom;
      rewrite ?select_choose_two, ?select_choose_one, ?select_choose_nil;
      try destruct (Nat.even pick);
      unfold chan_send; rewrite ?Hc, ?Hflag, ?Hpark;
      try apply bool_decide_eq_true_1 in Hroom.
    all: try (destruct Hsame
                as (w' & d & k & ? & ? & ? & ? & ? & ? & ? & ? & ?);
              exists w', d, k; rewrite ?orb_false_r;
              do 7 (split; [done|]); right; right; done).
    all: try (apply andb_prop in Hpark as [_ Hbuf%bool_decide_eq_true_1];
              eexists _, [r], 0%nat; split; [reflexivity|];
              unfold good, guard_inv, delivered; simpl;
              rewrite ?Hflag, ?Hdone, ?Hbuf, ?Nat.add_0_r, ?app_nil_r;
              simpl; repeat split; try done; try lia; by left).
    all: try (eexists _, [r], 0%nat; split; [reflexivity|];
              unfold good, guard_inv, delivered; simpl;
              rewrite ?Hflag, ?Hdone, ?Nat.add_0_r, ?length_app,
                ?app_assoc;
              simpl; repeat split; try done; try lia; by left).
    all: try (eexists _, [], 1%nat; split; [reflexivity|];
              unfold good, guard_inv, delivered; simpl;
              rewrite ?Hflag, ?Hdone, ?app_nil_r;
              repeat split; try done; try lia; right; left; done).
  - unfold safeClose, chan_close.
    destruct (resultChanClosed w) eqn:Hflag; simpl.
    + destruct Hsame as (w' & d & k & ? & ? & ? & ? & ? & ? & ? & ? & ?).
      exists w', d, k. by rewrite ?orb_false_r.
    + rewrite Hc. eexists _, [], 0%nat. split; [reflexivity|].
      unfold good, guard_inv, delivered. simpl.
      rewrite app_nil_r, Nat.add_0_r, orb_false_r. repeat split; try done.
      by rewrite Hn.
  - exists (consumerRecv w), [], 0%nat.
    rewrite app_nil_r, Nat.add_0_r, !orb_false_r.
    unfold consumerRecv, good, guard_inv, delivered.
    destruct (buf (resultsChan w)) as [|x rest] eqn:Hbuf; simpl;
      rewrite ?Hbuf, <- ?app_assoc; simpl in *;
      repeat split; try done; lia.
  - exists (cancel w), [], 0%nat.
    rewrite app_nil_r, Nat.add_0_r, orb_false_r, orb_true_r.
    by repeat split.
Qed.

(** What a whole execution does, from any good state. *)
Lemma run_effect evs w :
  good w ->
  exists w' d,
    run evs w = Some w' /\ good w' /\
    cap (resultsChan w') = cap (resultsChan w) /\
    delivered w' = delivered w ++ d /\
    (resultChanClosed w = true -> d = [] /\ warnings w' = warnings w) /\
    (resultChanClosed w = false ->
       sublist d (sent_before_close evs) /\
       (length d + warnings w'
          <= warnings w + length (sent_before_close evs))%nat /\
       (ctxDone w = false -> existsb is_Cancel evs = false ->
        (length d + warnings w'
           = warnings w + length (sent_before_close evs))%nat)) /\
    (ctxDone w = true -> warnings w' = warnings w).
Proof.
  revert w. induction evs as [|e evs IH]; intros w Hgood.
  { exists w, []. rewrite app_nil_r. simpl.
    do 5 (split; [done|]). split; [|done]. intros _.
    split; [constructor|]. split; [lia|]. intros; lia. }
  destruct (step_effect e w Hgood)
    as (w1 & d1 & k1 & Hstep & Hgood1 & Hcap1 & Hflag1 & Hdone1 & Hdel1
        & Hwarn1 & Hcase).
  destruct (IH w1 Hgood1)
    as (w2 & d2 & Hrun & Hgood2 & Hcap2 & Hdel2 & Hclosed2 & Hopen2
        & Hsilent2).
  exists w2, (d1 ++ d2). simpl. rewrite Hstep.
  split; [exact Hrun|]. split; [exact Hgood2|].
  split; [congruence|]. split; [by rewrite Hdel2, Hdel1, app_assoc|].
  destruct e as [pick parked r| | |]; simpl in *;
    rewrite ?orb_false_r, ?orb_true_r in *.
  - (* Send *)
    destruct (resultChanClosed w) eqn:Hflag.
    + destruct Hcase as [-> ->]. destruct (Hclosed2 Hflag1) as [-> Hw].
      repeat split; try done; try lia.
    + specialize (Hopen2 Hflag1) as (Hsub & Hle & Heq).
      split; [done|]. rewrite length_app.
      destruct Hcase as [[-> ->]|[(-> & -> & Hd)|(-> & -> & Hd)]]; simpl.
      * repeat split.
        -- by apply sublist_skip.
        -- lia.
        -- intros Hd Hnc. specialize (Heq ltac:(congruence) Hnc). lia.
        -- intros Hd. rewrite Hsilent2 by congruence. lia.
      * repeat split.
        -- by apply sublist_cons.
        -- lia.
        -- intros _ Hnc. specialize (Heq ltac:(congruence) Hnc). lia.
        -- congruence.
      * repeat split.
        -- by apply sublist_cons.
        -- lia.
        -- congruence.
        -- intros _. rewrite Hsilent2 by congruence. lia.
  - (* Close *)
    destruct Hcase as [-> ->]. destruct (Hclosed2 Hflag1) as [-> Hw].
    simpl. repeat split; try done; try lia.
  - (* Recv *)
    destruct Hcase as [-> ->]. simpl.
    rewrite Nat.add_0_r in Hwarn1. rewrite <- Hwarn1.
    split; [intros Hf; apply Hclosed2; congruence|].
    split; [intros Hf; destruct Hopen2 as (?&?&Heq); [congruence|];
            repeat split; try done; intros ??; apply Heq; congruence|].
    intros Hd. apply Hsilent2. congruence.
  - (* Cancel *)
    destruct Hcase as [-> ->]. simpl.
    rewrite Nat.add_0_r in Hwarn1. rewrite <- Hwarn1.
    split; [intros Hf; apply Hclosed2; congruence|].
    split; [intros Hf; destruct Hopen2 as (?&?&Heq); [congruence|];
            repeat split; done|].
    intros _. by apply Hsilent2.
Qed.

(** X7: in every execution the buffer of [resultsChan] holds at most as
    many outcomes as the capacity the channel was made with; with
    capacity 0 it never holds any. *)
Theorem buffer_within_capacity (n : nat) (evs : list Event) :
  exists w,
    run evs (init n) = Some w /\
    cap (resultsChan w) = n /\
    (length (buf (resultsChan w)) <= n)%nat.
Proof.
  destruct (run_effect evs _ (init_good n))
    as (w & d & Hrun & [_ Hb] & Hcap & _).
  exists w. simpl in Hcap. rewrite Hcap in Hb. by repeat split.
Qed.

(** X8: what has reached the consumer, followed by what waits in the
    buffer, is a subsequence of the outcomes passed to [safeSend] before
    the first [safeClose], in the order of the calls: the guard neither
    reorders, nor repeats, nor invents an outcome, and delivers nothing
    that was sent after the close. *)
Theorem delivered_in_send_order (n : nat) (evs : list Event) :
  exists w,
    run evs (init n) = Some w /\
    sublist (received w ++ buf (resultsChan w)) (sent_before_close evs).
Proof.
  destruct (run_effect evs _ (init_good n))
    as (w & d & Hrun & _ & _ & Hdel & _ & Hopen & _).
  exists w. split; [exact Hrun|].
  destruct (Hopen eq_refl) as (Hsub & _).
  unfold delivered in Hdel. simpl in Hdel. by rewrite Hdel.
Qed.

(** X9: every outcome sent before the close is delivered, or dropped
    with the buffer-full warning, or (only once the deadline has fired)
    dropped silently: delivered outcomes and warnings never outnumber the
    sends, and while the deadline has not fired they account for every
    send. *)
Theorem sends_are_delivered_or_warned (n : nat) (evs : list Event) :
  exists w,
    run evs (init n) = Some w /\
    (length (received w ++ buf (resultsChan w)) + warnings w
       <= length (sent_before_close evs))%nat /\
    (existsb is_Cancel evs = false ->
     (length (received w ++ buf (resultsChan w)) + warnings w
        = length (sent_before_close evs))%nat).
Proof.
  destruct (run_effect evs _ (init_good n))
    as (w & d & Hrun & _ & _ & Hdel & _ & Hopen & _).
  exists w. split; [exact Hrun|].
  destruct (Hopen eq_refl) as (_ & Hle & Heq).
  unfold delivered in Hdel. simpl in Hdel, Hle, Heq. rewrite Hdel.
  split; [exact Hle|]. intros Hnc. by apply Heq.
Qed.

(** X10: once the deadline has fired the buffer-full warning is never
    reported again: whatever follows, sends included and the buffer full
    or not, the warning count stays where it was. *)
Theorem no_warning_after_deadline (n : nat) (pre post : list Event) :
  exists w1 w2,
    run pre (init n) = Some w1 /\
    run (pre ++ Cancel :: post) (init n) = Some w2 /\
    warnings w2 = warnings w1.
Proof.
  destruct (run_effect pre _ (init_good n)) as (w1 & d & Hrun & Hgood & _).
  assert (good (cancel w1)) as Hgood' by (by destruct Hgood).
  destruct (run_effect post _ Hgood')
    as (w2 & d2 & Hrun2 & _ & _ & _ & _ & _ & Hsilent).
  exists w1, w2. rewrite run_app, Hrun. simpl.
  split; [done|]. split; [exact Hrun2|]. by apply Hsilent.
Qed.

Lemma drain_buffer (w : World) :
  exists w',
    run (repeat Recv (length (buf (resultsChan w)))) w = Some w' /\
    buf (resultsChan w') = [] /\
    received w' = received w ++ buf (resultsChan w) /\
    resultChanClosed w' = resultChanClosed w.
Proof.
  remember (length (buf (resultsChan w))) as k eqn:Hk.
  revert w Hk. induction k as [|k IH]; intros w Hk.
  - exists w. simpl. destruct (buf (resultsChan w)); [|done].
    by rewrite app_nil_r.
  - destruct (buf (resultsChan w)) as [|x rest] eqn:Hbuf; [done|].
    simpl. unfold consumerRecv. rewrite Hbuf.
    edestruct IH as (w' & -> & Hb & Hr & Hf); [|exists w'].
    { simpl in *. lia. }
    simpl in *. rewrite Hr, <- app_assoc. by repeat split.
Qed.

(** X11: closing loses nothing that was already enqueued: after a
    [safeClose], a consumer that goes on receiving gets every buffered
    outcome, oldest first, and the buffer ends empty. *)
Theorem close_then_drain (n : nat) (evs : list Event) :
  exists w w',
    run evs (init n) = Some w /\
    run (evs ++ Close :: repeat Recv (length (buf (resultsChan w))))
        (init n) = Some w' /\
    resultChanClosed w' = true /\
    buf (resultsChan w') = [] /\
    received w' = received w ++ buf (resultsChan w).
Proof.
  destruct (run_effect evs _ (init_good n)) as (w & d & Hrun & Hgood & _).
  destruct (step_effect Close w Hgood)
    as (w1 & d1 & k1 & Hstep & _ & _ & Hflag & _ & Hdel & _ & [-> ->]).
  simpl in Hstep, Hflag. rewrite orb_true_r in Hflag.
  assert (buf (resultsChan w1) = buf (resultsChan w) /\
          received w1 = received w) as [Hb Hr].
  { unfold safeClose, chan_close in Hstep.
    destruct (negb (resultChanClosed w));
      [destruct (closed _); [done|]|]; by injection Hstep as <-. }
  destruct (drain_buffer w1) as (w' & Hdrain & Hempty & Hrecv & Hf).
  exists w, w'. rewrite run_app, Hrun. simpl. rewrite Hstep.
  rewrite <- Hb. split; [done|]. split; [exact Hdrain|].
  split; [congruence|]. split; [exact Hempty|]. by rewrite Hrecv, Hr.
Qed.

(** X12: the aggregate the consumer builds from what it has received
    counts exactly the received outcomes, which are never more than the
    outcomes sent before the close: the reported total cannot exceed the
    number of requests made (below 2^63 sends). *)
Theorem consumer_counts_at_most_the_sends (n : nat) (evs : list Event) :
  GoInt.len (sent_before_close evs) <= GoInt.MaxInt64 ->
  exists w,
    run evs (init n) = Some w /\
    Requests (AddAll (received w) zeroMetrics) = GoInt.len (received w) /\
    Requests (AddAll (received w) zeroMetrics)
      <= GoInt.len (sent_before_close evs).
Proof.
  intros Hmax.
  destruct (run_effect evs _ (init_good n))
    as (w & d & Hrun & _ & _ & Hdel & _ & Hopen & _).
  exists w. split; [exact Hrun|].
  destruct (Hopen eq_refl) as (Hsub & _).
  unfold delivered in Hdel. simpl in Hdel.
  assert (GoInt.len (received w) <= GoInt.len (sent_before_close evs))
    as Hlen.
  { apply sublist_length in Hsub. rewrite <- Hdel, length_app in Hsub.
    unfold GoInt.len. lia. }
  destruct (AddAll_counts_exact (received w) ltac:(lia))
    as (_ & _ & Hreq & _).
  cbv zeta in Hreq. rewrite Hreq. by split.
Qed.

Lemma consumer_counts_at_most_the_sends_witness :
  exists w,
    run [Send 0 false (mkResult 5 200 None); Recv; Close] (init 1) = Some w /\
    Requests (AddAll (received w) zeroMetrics) = GoInt.len (received w) /\
    Requests (AddAll (received w) zeroMetrics)
      <= GoInt.len (sent_before_close
                      [Send 0 false (mkResult 5 200 None); Recv; Close]).
Proof.
  apply (consumer_counts_at_most_the_sends 1
           [Send 0 false (mkResult 5 200 None); Recv; Close]).
  vm_compute. discriminate.
Defined.

End GuardRunFacts.

(** ** The validator and the dispatcher *)

Section DispatcherFacts.

Import GoInt Target Dispatcher.

(** X13: the string the validator hands to the URL parser always starts
    with "http://" or "https://", and validating that string again adds
    no second prefix: it gives the same result. *)
Theorem validateTarget_parses_with_scheme (t : string) :
  let t' := if isURL t then t else ("http://" ++ t)%string in
  isURL t' = true /\
  forall (URL : Type) (url_Parse : string -> result URL),
    validateTarget url_Parse t = url_Parse t' /\
    validateTarget url_Parse t' = validateTarget url_Parse t.
Proof.
  cbv zeta.
  assert (isURL (if isURL t then t else ("http://" ++ t)%string) = true)
    as Hurl.
  { destruct (isURL t) eqn:E; [exact E|]. clear E.
    by destruct t. }
  split; [exact Hurl|]. intros URL url_Parse.
  by rewrite !validateTarget_eq, Hurl.
Qed.

(** Converting an integer below 2^53 to [float64] and back loses
    nothing. *)
Lemma to_int_of_int (N : Z) : 0 <= N < 2 ^ 53 -> F64.to_int (F64.of_int N) = N.
Proof.
  intros [HN0 HN]. destruct N as [|n|n]; [reflexivity| |lia].
  destruct (of_int_small n HN) as (A & s & -> & Hs & HA & HA53).
  unfold F64.to_int. rewrite HA.
  assert (0 < 2 ^ s) by (apply Z.pow_pos_nonneg; lia).
  destruct (Z.leb_spec 0 (- s)).
  - replace s with 0 in * by lia. simpl (2 ^ 0) in *. rewrite !Z.mul_1_r.
    unfold MinInt64, MaxInt64.
    destruct (Z.leb_spec (- 2 ^ 63) (Z.pos n)),
      (Z.leb_spec (Z.pos n) (2 ^ 63 - 1)); simpl; lia.
  - rewrite Z.opp_involutive, Z.div_mul by lia.
    unfold MinInt64, MaxInt64.
    destruct (Z.leb_spec (- 2 ^ 63) (Z.pos n)),
      (Z.leb_spec (Z.pos n) (2 ^ 63 - 1)); simpl; lia.
Qed.

Lemma Seconds_whole (k : Z) :
  0 <= k < 2 ^ 53 -> Seconds (k * Second) = F64.of_int k.
Proof.
  intros [Hk0 Hk]. unfold Seconds.
  rewrite Z.quot_mul, Z.rem_mul by (unfold Second; lia).
  change (F64.div (F64.of_int 0) F64.c1e9) with (S754_zero false).
  destruct k as [|n|n]; [reflexivity| |lia].
  by destruct (of_int_small n Hk) as (A & s & -> & _).
Qed.

(** X14: for a duration of k whole seconds (k below 2^53) the float
    conversion [int(duration.Seconds())] gives back k exactly, so the
    dispatcher plans rps * k requests (as a Go [int]). *)
Theorem planned_for_whole_seconds (rps k : Z) :
  0 <= k < 2 ^ 53 ->
  whole_seconds (k * Second) = k /\
  planned rps (k * Second) = wrap (rps * k).
Proof.
  intros Hk. unfold planned, whole_seconds.
  rewrite Seconds_whole, to_int_of_int by exact Hk. by split.
Qed.

Lemma planned_for_whole_seconds_witness :
  whole_seconds (300 * Second) = 300 /\
  planned 50 (300 * Second) = wrap (50 * 300).
Proof.
  apply (planned_for_whole_seconds 50 300). split; [discriminate|reflexivity].
Defined.

Section SetupFacts.

Context {URL : Type} (url_Parse : string -> result URL) (maxChan : Z).

(** X15: with a target that parses and a planned size the channel
    accepts, the rate-mode set-up succeeds exactly for 1 <= rps <= 10^9,
    with the tick interval the whole number of nanoseconds in 1s / rps
    (so rps ticks fit in a second); rps = 0 is a division by zero, and a
    negative rps or one above 10^9 leaves no positive interval for the
    ticker: both are panics, not errors. *)
Theorem rpsSetup_needs_rps_in_range
    (target : string) (u : URL) (rps duration : Z) :
  validateTarget url_Parse target = Ok u ->
  in_range rps ->
  0 <= planned rps duration <= maxChan ->
  let interval := Second / rps in
  (1 <= rps <= Second ->
   rpsSetup url_Parse maxChan target rps duration
     = SetupReady u (planned rps duration) interval /\
   1 <= interval /\ rps * interval <= Second < rps * (interval + 1)) /\
  (rps = 0 ->
   rpsSetup url_Parse maxChan target rps duration
     = SetupPanic "integer divide by zero") /\
  (rps < 0 \/ Second < rps ->
   rpsSetup url_Parse maxChan target rps duration
     = SetupPanic "non-positive interval for NewTicker").
Proof.
  intros Hok Hrps Hcap interval. unfold rpsSetup. rewrite Hok. cbv zeta.
  destruct (Z.ltb_spec (planned rps duration) 0); [lia|].
  destruct (Z.ltb_spec maxChan (planned rps duration)); [lia|].
  cbn [orb]. unfold div.
  unfold in_range, MinInt64, MaxInt64 in Hrps.
  assert (Second = 1000000000) as HS by reflexivity.
  repeat split.
  - destruct (Z.eqb_spec rps 0); [lia|].
    rewrite Z.quot_div_nonneg by lia. fold interval.
    assert (1 <= interval <= Second) as Hi.
    { unfold interval. split.
      - apply Z.div_le_lower_bound; lia.
      - apply Z.div_le_upper_bound; nia. }
    rewrite wrap_small
      by (unfold in_range, MinInt64, MaxInt64; lia).
    destruct (Z.leb_spec interval 0); [lia|done].
  - unfold interval. apply Z.div_le_lower_bound; lia.
  - unfold interval. apply Z.mul_div_le. lia.
  - unfold interval. apply Z.mul_succ_div_gt. lia.
  - intros ->. reflexivity.
  - intros Hout. destruct (Z.eqb_spec rps 0); [lia|].
    assert (Z.quot Second rps <= 0) as Hq.
    { destruct Hout as [Hneg|Hbig].
      - rewrite <- (Z.opp_involutive rps), Z.quot_opp_r by lia.
        assert (0 <= Z.quot Second (- rps)); [|lia].
        apply Z.quot_pos; lia.
      - rewrite Z.quot_small by lia. lia. }
    assert (- Second <= Z.quot Second rps) as Hq'.
    { destruct Hout as [Hneg|Hbig].
      - rewrite <- (Z.opp_involutive rps), Z.quot_opp_r by lia.
        assert (Z.quot Second (- rps) <= Second); [|lia].
        rewrite Z.quot_div_nonneg by lia.
        apply Z.div_le_upper_bound; nia.
      - rewrite Z.quot_small by lia. lia. }
    rewrite wrap_small
      by (unfold in_range, MinInt64, MaxInt64; lia).
    destruct (Z.leb_spec (Z.quot Second rps) 0); [done|lia].
Qed.

End SetupFacts.

Lemma rpsSetup_needs_rps_in_range_witness :
  (1 <= 50 <= Second ->
   rpsSetup no_space_parse 10000000 "example.com" 50 (300 * Second)
     = SetupReady "http://example.com"%string
                  (planned 50 (300 * Second)) (Second / 50) /\
   1 <= Second / 50 /\
   50 * (Second / 50) <= Second < 50 * (Second / 50 + 1)) /\
  (50 = 0 ->
   rpsSetup no_space_parse 10000000 "example.com" 50 (300 * Second)
     = SetupPanic "integer divide by zero") /\
  (50 < 0 \/ Second < 50 ->
   rpsSetup no_space_parse 10000000 "example.com" 50 (300 * Second)
     = SetupPanic "non-positive interval for NewTicker").
Proof.
  apply (rpsSetup_needs_rps_in_range no_space_parse 10000000
           "example.com" "http://example.com"%string 50 (300 * Second)).
  - reflexivity.
  - split; discriminate.
  - split; vm_compute; discriminate.
Defined.

Lemma dispatch_from (planned : Z) (sel : list Select) (s : Z) :
  planned <= MaxInt64 -> 0 <= s < Z.max 1 planned ->
  exists s' stop,
    dispatch planned sel s = (s', stop) /\
    s <= s' <= Z.max 1 planned /\
    s' - s <= len (List.filter is_Tick sel) /\
    (stop = StoppedByQuota -> s' = Z.max 1 planned) /\
    (stop = Running -> s' = s + len sel) /\
    (stop = StoppedByDeadline -> s' < Z.max 1 planned).
Proof.
  intros Hp. revert s. induction sel as [|[] sel IH]; intros s Hs.
  - exists s, Running. unfold len. simpl. repeat split; try lia; done.
  - exists s, StoppedByDeadline. unfold len. simpl.
    repeat split; try lia; done.
  - simpl. unfold incr, add. unfold MaxInt64 in Hp.
    rewrite wrap_small by (unfold in_range, MinInt64, MaxInt64; lia).
    destruct (Z.geb_spec (s + 1) planned) as [Hge|Hlt].
    + exists (s + 1), StoppedByQuota. unfold len. simpl.
      repeat split; try lia; done.
    + destruct (IH (s + 1) ltac:(lia))
        as (s' & stop & -> & Hb & Ht & Hq & Hr & Hd).
      exists s', stop. unfold len in *. simpl length.
      repeat split; try lia; auto. intros H. specialize (Hr H). lia.
Qed.

Lemma dispatch_all_ticks (planned : Z) (k : nat) (rest : list Select) (s : Z) :
  planned <= MaxInt64 -> 0 <= s ->
  s + Z.of_nat k = Z.max 1 planned -> (0 < k)%nat ->
  dispatch planned (repeat SelTick k ++ rest) s
    = (Z.max 1 planned, StoppedByQuota).
Proof.
  intros Hp. revert s. induction k as [|k IH]; intros s Hs Hk Hpos; [lia|].
  simpl. unfold incr, add. unfold MaxInt64 in Hp.
  rewrite wrap_small by (unfold in_range, MinInt64, MaxInt64; lia).
  destruct (Z.geb_spec (s + 1) planned) as [Hge|Hlt].
  - f_equal. lia.
  - apply IH; lia.
Qed.

(** X16: the sender of the rate mode starts at most max(1, planned)
    requests, and no more than it had ticks; it stops by quota exactly at
    max(1, planned), which it reaches whenever that many ticks come before
    the deadline.  So a plan of zero requests (a duration under one
    second) still sends one request at the first tick. *)
Theorem dispatch_sends_at_most_planned
    (planned : Z) (sel rest : list Select) :
  planned <= MaxInt64 ->
  (exists sent stop,
     dispatch planned sel 0 = (sent, stop) /\
     0 <= sent <= Z.max 1 planned /\
     sent <= len (List.filter is_Tick sel) /\
     (stop = StoppedByQuota -> sent = Z.max 1 planned) /\
     (stop = Running -> sent = len sel) /\
     (stop = StoppedByDeadline -> sent < Z.max 1 planned)) /\
  dispatch planned (repeat SelTick (Z.to_nat (Z.max 1 planned)) ++ rest) 0
    = (Z.max 1 planned, StoppedByQuota).
Proof.
  intros Hp. split.
  - destruct (dispatch_from planned sel 0 Hp ltac:(lia))
      as (s' & stop & Hd & Hb & Ht & Hq & Hr & Hdl).
    exists s', stop. repeat split; try lia; auto.
  - apply dispatch_all_ticks; lia.
Qed.

Lemma dispatch_sends_at_most_planned_witness :
  (exists sent stop,
     dispatch 0 [SelTick; SelTick; SelDone] 0 = (sent, stop) /\
     0 <= sent <= Z.max 1 0 /\
     sent <= len (List.filter is_Tick [SelTick; SelTick; SelDone]) /\
     (stop = StoppedByQuota -> sent = Z.max 1 0) /\
     (stop = Running -> sent = len [SelTick; SelTick; SelDone]) /\
     (stop = StoppedByDeadline -> sent < Z.max 1 0)) /\
  dispatch 0 (repeat SelTick (Z.to_nat (Z.max 1 0)) ++ [SelDone]) 0
    = (Z.max 1 0, StoppedByQuota).
Proof.
  apply (dispatch_sends_at_most_planned 0 [SelTick; SelTick; SelDone]
           [SelDone]).
  discriminate.
Defined.

End DispatcherFacts.

(** ** Peaks and recommendations *)

Section RecommenderFacts.

Import Recommender.

Lemma minimums_nearest :
  minCPURequest = F64.div (F64.of_int 1) (F64.of_int 100) /\
  minCPULimit = F64.div (F64.of_int 5) (F64.of_int 100).
Proof. split; vm_compute; reflexivity. Qed.

Lemma lt_irrefl (x : spec_float) : lt x x = false.
Proof.
  unfold lt, SFltb, SFcompare.
  destruct x as [[]|[]| |[] m e]; try reflexivity;
    rewrite Z.compare_refl;
    change (Pos.compare_cont Eq m m) with (m ?= m)%positive;
    by rewrite Pos.compare_refl.
Qed.

(** [<] on [float64] is transitive. *)
Lemma lt_trans (x y z : spec_float) :
  lt x y = true -> lt y z = true -> lt x z = true.
Proof.
  unfold lt, SFltb, SFcompare.
  destruct x as [[]|[]| |[] mx ex], y as [[]|[]| |[] my ey],
    z as [[]|[]| |[] mz ez]; try done;
    change (Pos.compare_cont Eq) with Pos.compare;
    destruct (Z.compare_spec ex ey), (Z.compare_spec ey ez),
      (Z.compare_spec ex ez); try done; try lia; subst;
    destruct (Pos.compare_spec mx my), (Pos.compare_spec my mz),
      (Pos.compare_spec mx mz); try done; try lia.
Qed.

Lemma clamp_floor (x c : spec_float) :
  lt (if lt x c then c else x) c = false.
Proof. destruct (lt x c) eqn:E; [apply lt_irrefl|exact E]. Qed.

Lemma raise_not_below (l r : spec_float) :
  lt (if lt l r then r else l) r = false.
Proof. destruct (lt l r) eqn:E; [apply lt_irrefl|exact E]. Qed.

Lemma raise_keeps_floor (l r c : spec_float) :
  lt l c = false -> lt (if lt l r then r else l) c = false.
Proof.
  intros Hl. destruct (lt l r) eqn:E; [|exact Hl].
  destruct (lt r c) eqn:Hr; [|reflexivity].
  by rewrite (lt_trans _ _ _ E Hr) in Hl.
Qed.

Lemma applyMinimumValues_within (r : Recommendations) :
  within_minimums (applyMinimumValues r).
Proof.
  unfold within_minimums, applyMinimumValues. cbn [CPURequest CPULimit
    MemoryRequest MemoryLimit].
  repeat split;
    auto using clamp_floor, raise_not_below, raise_keeps_floor.
Qed.

Lemma applyMinimumValues_fixed (r : Recommendations) :
  within_minimums r -> applyMinimumValues r = r.
Proof.
  intros (H1 & H2 & H3 & H4 & H5 & H6). unfold applyMinimumValues.
  rewrite H1, H2, H3, H4, H5, H6. by destruct r.
Qed.

(** X17: whatever the metrics, the current settings and the margin, no
    recommended value compares below its minimum (0.01 and 0.05 cores,
    32 and 64 Mi), and no recommended limit compares below the
    recommended request. *)
Theorem recommendations_within_minimums
    (allMetrics : list ResourceMetrics) (currentSettings : ResourceSettings)
    (margin : Z) :
  let r := GenerateRecommendations allMetrics currentSettings margin in
  lt (CPURequest r) minCPURequest = false /\
  lt (CPULimit r) minCPULimit = false /\
  lt (MemoryRequest r) minMemoryRequest = false /\
  lt (MemoryLimit r) minMemoryLimit = false /\
  lt (CPULimit r) (CPURequest r) = false /\
  lt (MemoryLimit r) (MemoryRequest r) = false.
Proof.
  cbv zeta. unfold GenerateRecommendations.
  destruct (CalculateAverageMetrics allMetrics) as [avgCPU avgMemory].
  destruct (CalculatePeakMetrics allMetrics) as [peakCPU peakMemory].
  apply applyMinimumValues_within.
Qed.

(** X18: [applyMinimumValues] changes nothing exactly on the
    recommendations that already respect the minimums and have limits not
    below requests, and its result is such a recommendation: applying it
    twice is the same as applying it once. *)
Theorem applyMinimumValues_fixed_points (r : Recommendations) :
  (applyMinimumValues r = r <-> within_minimums r) /\
  applyMinimumValues (applyMinimumValues r) = applyMinimumValues r.
Proof.
  split; [split|].
  - intros <-. apply applyMinimumValues_within.
  - apply applyMinimumValues_fixed.
  - apply applyMinimumValues_fixed, applyMinimumValues_within.
Qed.

(** The running peak of one quantity. *)
Lemma peak_fold (l : list spec_float) (p : spec_float) :
  let p' := fold_left (fun p x => if lt p x then x else p) l p in
  (p' = p \/ (lt p p' = true /\ In p' l)) /\
  Forall (fun x => lt p' x = false) l.
Proof.
  revert p. induction l as [|x l IH]; intros p; simpl.
  { split; [by left|constructor]. }
  destruct (IH (if lt p x then x else p)) as [Hp' Hall].
  set (p1 := if lt p x then x else p) in *.
  set (p' := fold_left _ l p1) in *.
  assert (lt p1 x = false) as H1 by apply raise_not_below.
  assert (p1 = p \/ (lt p p1 = true /\ p1 = x)) as Hp1.
  { unfold p1. destruct (lt p x) eqn:E; [right|left]; done. }
  split.
  - destruct Hp' as [->|[Hlt Hin]].
    + destruct Hp1 as [->|[Hlt ->]]; [by left|right].
      split; [done|by left].
    + right. split; [|by right].
      destruct Hp1 as [->|[Hlt1 _]]; [done|]. by eapply lt_trans.
  - constructor; [|exact Hall].
    destruct Hp' as [->|[Hlt _]]; [done|].
    destruct (lt p' x) eqn:E; [|done].
    by rewrite (lt_trans _ _ _ Hlt E) in H1.
Qed.

Lemma peak_step_fold (l : list ResourceMetrics) (c m : spec_float) :
  fold_left peak_step l (c, m) =
  (fold_left (fun p x => if lt p x then x else p) (map CPUUsage l) c,
   fold_left (fun p x => if lt p x then x else p) (map MemoryUsage l) m).
Proof. revert c m. induction l as [|x l IH]; intros c m; simpl; [done|apply IH]. Qed.

(** X19: for a non-empty collection the peak CPU and the peak memory are
    each one of the collected values, and no collected value compares
    greater than the peak (a NaN sample never becomes the peak unless it
    is the first). *)
Theorem CalculatePeakMetrics_is_a_maximum
    (m0 : ResourceMetrics) (ms : list ResourceMetrics) :
  let '(peakCPU, peakMemory) := CalculatePeakMetrics (m0 :: ms) in
  In peakCPU (map CPUUsage (m0 :: ms)) /\
  Forall (fun x => lt peakCPU x = false) (map CPUUsage (m0 :: ms)) /\
  In peakMemory (map MemoryUsage (m0 :: ms)) /\
  Forall (fun x => lt peakMemory x = false) (map MemoryUsage (m0 :: ms)).
Proof.
  unfold CalculatePeakMetrics. rewrite peak_step_fold.
  destruct (peak_fold (map CPUUsage (m0 :: ms)) (CPUUsage m0)) as [Hc Hcall].
  destruct (peak_fold (map MemoryUsage (m0 :: ms)) (MemoryUsage m0))
    as [Hm Hmall].
  cbv zeta in *. repeat split; try done.
  - destruct Hc as [->|[_ Hin]]; [by left|done].
  - destruct Hm as [->|[_ Hin]]; [by left|done].
Qed.

(** The repository's own test of the recommender, on its data: three
    samples with a margin of 20 give requests and limits within the
    test's tolerances of 0.18 and 0.24 cores, 148 and 180 Mi, and one tiny
    sample gives values not below the minimums. *)
Example TestGenerateRecommendations_passes :
  let f a b := F64.div (F64.of_int a) (F64.of_int b) in
  let dist x y := SFabs (SFsub F64.prec F64.emax x y) in
  let current := mkResourceSettings (f 1 10) (f 3 10) (F64.of_int 128)
                                    (F64.of_int 256) in
  let r := GenerateRecommendations
             [mkResourceMetrics 0 (f 1 10) (F64.of_int 100);
              mkResourceMetrics 0 (f 15 100) (F64.of_int 120);
              mkResourceMetrics 0 (f 2 10) (F64.of_int 150)] current 20 in
  let small := GenerateRecommendations
                 [mkResourceMetrics 0 (f 1 1000) (F64.of_int 10)]
                 current 20 in
  lt (f 1 1000) (dist (CPURequest r) (f 18 100)) = false /\
  lt (f 1 1000) (dist (CPULimit r) (f 24 100)) = false /\
  lt (f 1 2) (dist (MemoryRequest r) (F64.of_int 148)) = false /\
  lt (f 1 2) (dist (MemoryLimit r) (F64.of_int 180)) = false /\
  lt (CPURequest small) (f 1 100) = false /\
  lt (CPULimit small) (f 5 100) = false /\
  lt (MemoryRequest small) (F64.of_int 32) = false /\
  lt (MemoryLimit small) (F64.of_int 64) = false.
Proof. vm_compute. repeat split. Qed.

End RecommenderFacts.

(** ** Names and selectors *)

Section NameFacts.

Import Names.

Example Split_examples :
  Split "http://svc:8080" "//" = ["http:"; "svc:8080"]%string /\
  Split "svc:8080" ":" = ["svc"; "8080"]%string /\
  Split "a=b=c" "=" = ["a"; "b"; "c"]%string /\
  Split "abc" ":" = ["abc"]%string /\
  Split "a////b" "//" = ["a"; ""; "b"]%string /\
  Split "a:" ":" = ["a"; ""]%string /\
  extractSelector "http://nginx.default.svc.cluster.local"
    = Some "app=nginx.default.svc.cluster.local"%string /\
  extractSelector "https://svc:8443/x" = Some "app=svc"%string /\
  extractSelector "tier=web" = Some "tier=web"%string /\
  extractResourceName "http://svc:8080" = Some "svc"%string /\
  extractResourceName "app=nginx" = Some "nginx"%string /\
  extractResourceName "nginx" = Some "nginx"%string.
Proof. vm_compute. repeat split. Qed.

Lemma append_empty_r (s : string) : (s ++ "")%string = s.
Proof.
  induction s as [|c s IH]; [done|].
  change (String c (s ++ "")%string = String c s). by f_equal.
Qed.

Lemma append_snoc (s : string) (c : ascii) (t : string) :
  ((s ++ String c "") ++ t)%string = (s ++ String c t)%string.
Proof.
  induction s as [|a s IH]; [done|].
  change (String a ((s ++ String c "") ++ t)%string
          = String a (s ++ String c t)%string).
  by f_equal.
Qed.

(** The first piece of a split at a one-byte separator is what comes
    before the separator's first occurrence. *)
Lemma split_from_head (c : ascii) (cur s : string) :
  exists rest,
    split_from (String c "") 0 cur s = (cur ++ before c s)%string :: rest.
Proof.
  revert cur. induction s as [|a s IH]; intros cur; simpl.
  - exists []. by rewrite append_empty_r.
  - rewrite andb_true_r. destruct (Ascii.eqb a c).
    + eexists. by rewrite append_empty_r.
    + destruct (IH (cur ++ String a "")%string) as [rest ->].
      exists rest. by rewrite append_snoc.
Qed.

Lemma Split_head (c : ascii) (s : string) :
  GoInt.index (Split s (String c "")) 0 = Some (before c s).
Proof.
  unfold Split. by destruct (split_from_head c "" s) as [rest ->].
Qed.

Lemma index_1 {A} (l : list A) :
  (GoInt.len l >? 1) = true -> is_Some (GoInt.index l 1).
Proof.
  unfold GoInt.len, GoInt.index. intros H. simpl.
  apply lookup_lt_is_Some. destruct l as [|? [|? ?]]; simpl in *; try lia;
    discriminate.
Qed.

Lemma before_no_occurrence (c : ascii) (s : string) :
  Contains (before c s) (String c "") = false.
Proof.
  induction s as [|a s IH]; simpl; [done|].
  destruct (Ascii.eqb a c) eqn:E; simpl; [done|].
  by rewrite E, IH.
Qed.

(** What comes before the first colon carries no scheme. *)
Lemma before_colon_no_scheme (s : string) :
  HasPrefix (before ":" s) "http://" = false /\
  HasPrefix (before ":" s) "https://" = false.
Proof.
  assert (forall a, Ascii.eqb a ":" = false ->
              forall p, Ascii.eqb a ":" && p = false) as Hcolon
    by (by intros a ->).
  split.
  - destruct s as [|c1 [|c2 [|c3 [|c4 [|c5 s]]]]]; simpl;
      repeat match goal with
             | |- context [if Ascii.eqb ?a ":" then _ else _] =>
                 destruct (Ascii.eqb a ":") eqn:?; simpl
             end;
      rewrite ?andb_false_r; try done;
      repeat match goal with
             | |- Ascii.eqb ?a ?b && _ = false =>
                 destruct (Ascii.eqb a b) eqn:?; simpl; [|done]
             end; try done; by apply Hcolon.
  - destruct s as [|c1 [|c2 [|c3 [|c4 [|c5 [|c6 s]]]]]]; simpl;
      repeat match goal with
             | |- context [if Ascii.eqb ?a ":" then _ else _] =>
                 destruct (Ascii.eqb a ":") eqn:?; simpl
             end;
      rewrite ?andb_false_r; try done;
      repeat match goal with
             | |- Ascii.eqb ?a ?b && _ = false =>
                 destruct (Ascii.eqb a b) eqn:?; simpl; [|done]
             end; try done; by apply Hcolon.
Qed.

(** A string that is already a selector and has no scheme is returned
    as it is. *)
Lemma extractSelector_selector (sel : string) :
  HasPrefix sel "http://" = false -> HasPrefix sel "https://" = false ->
  Contains sel "=" = true -> extractSelector sel = Some sel.
Proof.
  intros H1 H2 H3. unfold extractSelector. rewrite H1, H2. cbn [orb].
  by rewrite H3.
Qed.

Lemma extractSelector_default (name : string) :
  extractSelector ("app=" ++ name) = Some ("app=" ++ name)%string.
Proof. apply extractSelector_selector; by destruct name. Qed.

(** X20: [extractSelector] never indexes out of range, what it returns
    always contains "=" (a label selector: the target's own when it has
    one, "app=" and a name otherwise), and a returned selector is passed
    through unchanged when it is given back. *)
Theorem extractSelector_gives_a_selector (target : string) :
  exists sel,
    extractSelector target = Some sel /\
    Contains sel "=" = true /\
    extractSelector sel = Some sel.
Proof.
  assert (forall name, Contains ("app=" ++ name) "=" = true) as Happ
    by (by intros []).
  (* a name that is neither way a URL *)
  assert (forall t,
            (Contains t "=" = true -> extractSelector t = Some t) ->
            exists sel,
              (if Contains t "=" then Some t else Some ("app=" ++ t)%string)
                = Some sel /\
              Contains sel "=" = true /\ extractSelector sel = Some sel)
    as Hfinish.
  { intros t Ht. destruct (Contains t "=") eqn:E.
    - exists t. auto.
    - exists ("app=" ++ t)%string. split; [done|].
      split; [apply Happ|apply extractSelector_default]. }
  unfold extractSelector at 1.
  destruct (HasPrefix target "http://" || HasPrefix target "https://")
    eqn:Hurl.
  - destruct (GoInt.len (Split target "//") >? 1) eqn:Hlen.
    + destruct (index_1 _ Hlen) as [host ->].
      rewrite Split_head. apply Hfinish. intros Hc.
      destruct (before_colon_no_scheme host) as [H1 H2].
      by apply extractSelector_selector.
    + apply Hfinish. intros Hc. unfold extractSelector.
      rewrite Hurl, Hlen. by rewrite Hc.
  - apply Hfinish. intros Hc. unfold extractSelector.
    rewrite Hurl. by rewrite Hc.
Qed.

(** X21: [extractResourceName] never indexes out of range; for a target
    with the scheme "http://" or "https://" it returns what stands between
    the scheme and the first colon (the whole rest, path included, when
    there is no colon), which holds no colon. *)
Theorem extractResourceName_of_a_url (target rest : string) :
  is_Some (extractResourceName target) /\
  extractResourceName ("http://" ++ rest) = Some (before ":" rest) /\
  extractResourceName ("https://" ++ rest) = Some (before ":" rest) /\
  Contains (before ":" rest) ":" = false.
Proof.
  split; [|split; [|split]].
  - unfold extractResourceName.
    destruct (HasPrefix target "http://"); [by rewrite Split_head|].
    destruct (HasPrefix target "https://"); [by rewrite Split_head|].
    destruct (Contains target "="); [|done].
    destruct (GoInt.len (Split target "=") >? 1) eqn:Hlen; [|done].
    by apply index_1.
  - unfold extractResourceName, TrimPrefix.
    assert (HasPrefix ("http://" ++ rest) "http://" = true) as ->
      by (by destruct rest).
    simpl. apply Split_head.
  - unfold extractResourceName, TrimPrefix.
    assert (HasPrefix ("https://" ++ rest) "http://" = false) as ->
      by (by destruct rest).
    assert (HasPrefix ("https://" ++ rest) "https://" = true) as ->
      by (by destruct rest).
    simpl. apply Split_head.
  - apply before_no_occurrence.
Qed.

End NameFacts.
